(** * vioscsi/virtio_pci.c: the transport callbacks of the virtio SCSI miniport

    A shallow embedding of the system-operations table [VioScsiSystemOps]
    and of the functions it binds: register access, the contiguous-page bump
    allocator, the PCI configuration snapshot readers, the BAR mapping cache
    and the MSI-X vector resolver.

    C integers are [Z] with the wrap-around of their width written out,
    pointers are addresses in [Z], the adapter extension is a record, and the
    code that mutates the adapter, writes memory or calls into StorPort runs
    in a small state-and-fault monad over a [machine].

    [mem_get_physical_address], [mem_alloc_nonpaged_block] and [vdev_sleep]
    only hand their arguments to a primitive outside this file and are not
    modelled. *)

From Stdlib Require Import ZArith Lia Bool.
From stdpp Require Import base option list list_numbers.

Local Open Scope Z_scope.

(** ** C integer types *)

(** The driver is built for two platforms (Win32 and x64); they differ in the
    width of [ULONG_PTR], [size_t] and pointers. *)
Inductive platform : Set := Win32 | x64.

Definition ptr_bits (p : platform) : Z :=
  match p with Win32 => 32 | x64 => 64 end.

(** Conversion to an unsigned type of [bits] bits. *)
Definition to_unsigned (bits x : Z) : Z := x mod 2 ^ bits.

(** Conversion to a signed two's complement type of [bits] bits. *)
Definition to_signed (bits x : Z) : Z :=
  (x + 2 ^ (bits - 1)) mod 2 ^ bits - 2 ^ (bits - 1).

Definition u8 (x : Z) : Z := to_unsigned 8 x.
Definition u16 (x : Z) : Z := to_unsigned 16 x.
Definition u32 (x : Z) : Z := to_unsigned 32 x.
Definition UCHAR : Z -> Z := u8.
Definition USHORT : Z -> Z := u16.
Definition ULONG : Z -> Z := u32.
Definition int (x : Z) : Z := to_signed 32 x.
Definition ULONG_PTR (p : platform) (x : Z) : Z := to_unsigned (ptr_bits p) x.
Definition size_t : platform -> Z -> Z := ULONG_PTR.

(** The range of values of each type. *)
Definition is_unsigned (bits x : Z) : Prop := 0 <= x < 2 ^ bits.
Definition is_int (x : Z) : Prop := - 2 ^ 31 <= x < 2 ^ 31.
Definition is_ULONG_PTR (p : platform) (x : Z) : Prop := is_unsigned (ptr_bits p) x.

(** C truth of an integer used as a condition. *)
Definition nonzero (x : Z) : bool := negb (x =? 0).

Definition NULL : Z := 0.

(** ** The adapter extension *)

(** Modelled from the spec: [VIRTIO_BAR], whose declaration (in a header
    of the driver) is not available.  One entry of the BAR table: physical
    base, length ([ULONG]), the lazily populated mapped base (a pointer,
    [NULL] while unmapped) and the port-space flag. *)
Record VIRTIO_BAR : Type := {
  BasePA : Z;
  uLength : Z;
  pBase : Z;
  bPortSpace : bool
}.

(** Modelled from the spec: [ADAPTER_EXTENSION], whose declaration (in
    vioscsi.h) is not available, restricted to the fields virtio_pci.c
    touches.  [pageAllocationSize] and [pageOffset] are [ULONG]s,
    [pageAllocationVa] a pointer, [pci_config_buf] the byte snapshot of PCI
    configuration space and [pci_bars] the BAR table. *)
Record ADAPTER_EXTENSION : Type := {
  pageAllocationVa : Z;
  pageAllocationSize : Z;
  pageOffset : Z;
  system_io_bus_number : Z;
  pci_config_buf : list Z;
  pci_bars : list VIRTIO_BAR;
  msix_enabled : bool
}.

Definition set_pageOffset (off : Z) (a : ADAPTER_EXTENSION) : ADAPTER_EXTENSION :=
  {| pageAllocationVa := pageAllocationVa a;
     pageAllocationSize := pageAllocationSize a;
     pageOffset := off;
     system_io_bus_number := system_io_bus_number a;
     pci_config_buf := pci_config_buf a;
     pci_bars := pci_bars a;
     msix_enabled := msix_enabled a |}.

Definition set_pci_bars (bars : list VIRTIO_BAR) (a : ADAPTER_EXTENSION) : ADAPTER_EXTENSION :=
  {| pageAllocationVa := pageAllocationVa a;
     pageAllocationSize := pageAllocationSize a;
     pageOffset := pageOffset a;
     system_io_bus_number := system_io_bus_number a;
     pci_config_buf := pci_config_buf a;
     pci_bars := bars;
     msix_enabled := msix_enabled a |}.

Definition set_pBase (base : Z) (b : VIRTIO_BAR) : VIRTIO_BAR :=
  {| BasePA := BasePA b; uLength := uLength b; pBase := base;
     bPortSpace := bPortSpace b |}.

(** ** The machine: adapter, memory and the StorPort host *)

Inductive io_space : Set := PortSpace | RegisterSpace.
Inductive io_width : Set := Uchar | Ushort | Ulong.

Definition width_bits (w : io_width) : Z :=
  match w with Uchar => 8 | Ushort => 16 | Ulong => 32 end.

(** The calls into the host that the transport layer issues. *)
Inductive host_call : Type :=
| ReadCall (s : io_space) (w : io_width) (addr : Z)
| WriteCall (s : io_space) (w : io_width) (addr value : Z)
| GetDeviceBaseCall (bus pa len : Z) (InIoSpace : bool).

(** [ram] is byte-addressed memory.  The host is an oracle: [host_replies]
    holds the answers it will give to the value-returning StorPort calls, in
    order (an exhausted host answers 0), and [host_calls] records every call
    issued so far, oldest first. *)
Record machine : Type := {
  adapter : ADAPTER_EXTENSION;
  ram : Z -> Z;
  host_replies : list Z;
  host_calls : list host_call
}.

Definition set_adapter (a : ADAPTER_EXTENSION) (m : machine) : machine :=
  {| adapter := a; ram := ram m;
     host_replies := host_replies m; host_calls := host_calls m |}.

Definition set_ram (r : Z -> Z) (m : machine) : machine :=
  {| adapter := adapter m; ram := r;
     host_replies := host_replies m; host_calls := host_calls m |}.

Definition host_step (c : host_call) (consume : bool) (m : machine) : machine :=
  {| adapter := adapter m; ram := ram m;
     host_replies := if consume then tail (host_replies m) else host_replies m;
     host_calls := host_calls m ++ [c] |}.

(** ** The driver monad: state passing with a fault *)

(** A call either returns a value and the machine it leaves, or performs an
    access outside the object it indexes (undefined behaviour in C). *)
Inductive outcome (A : Type) : Type :=
| Done (a : A) (m : machine)
| AccessOutsideObject.
Arguments Done {A} a m.
Arguments AccessOutsideObject {A}.

Definition drv (A : Type) : Type := machine -> outcome A.

#[global] Instance drv_ret : MRet drv := fun A a m => Done a m.
#[global] Instance drv_bind : MBind drv := fun A B f c m =>
  match c m with
  | Done a m' => f a m'
  | AccessOutsideObject => AccessOutsideObject
  end.

Definition get_adapter : drv ADAPTER_EXTENSION := fun m => Done (adapter m) m.
Definition put_adapter (a : ADAPTER_EXTENSION) : drv unit :=
  fun m => Done tt (set_adapter a m).
Definition fault {A : Type} : drv A := fun _ => AccessOutsideObject.

(** Indexing a C array with a signed index: defined inside the array only. *)
Definition array_at {A : Type} (l : list A) (i : Z) : option A :=
  if i <? 0 then None else l !! Z.to_nat i.

Definition index {A : Type} (l : list A) (i : Z) : drv A :=
  match array_at l i with
  | Some x => mret x
  | None => fault
  end.

(** ** StorPort and kernel primitives *)

(** Modelled from the spec: the host's register-access primitives.  A
    register or port read: the host answers, the answer has the width of
    the access; a write hands the value to the host. *)
Definition StorPortRead (s : io_space) (w : io_width) (addr : Z) : drv Z :=
  fun m =>
    Done (to_unsigned (width_bits w) (hd 0 (host_replies m)))
         (host_step (ReadCall s w addr) true m).

Definition StorPortWrite (s : io_space) (w : io_width) (addr value : Z) : drv unit :=
  fun m => Done tt (host_step (WriteCall s w addr value) false m).

Definition StorPortReadRegisterUlong := StorPortRead RegisterSpace Ulong.
Definition StorPortReadPortUlong := StorPortRead PortSpace Ulong.
Definition StorPortReadRegisterUchar := StorPortRead RegisterSpace Uchar.
Definition StorPortReadPortUchar := StorPortRead PortSpace Uchar.
Definition StorPortReadRegisterUshort := StorPortRead RegisterSpace Ushort.
Definition StorPortReadPortUshort := StorPortRead PortSpace Ushort.
Definition StorPortWriteRegisterUlong := StorPortWrite RegisterSpace Ulong.
Definition StorPortWritePortUlong := StorPortWrite PortSpace Ulong.
Definition StorPortWriteRegisterUchar := StorPortWrite RegisterSpace Uchar.
Definition StorPortWritePortUchar := StorPortWrite PortSpace Uchar.
Definition StorPortWriteRegisterUshort := StorPortWrite RegisterSpace Ushort.
Definition StorPortWritePortUshort := StorPortWrite PortSpace Ushort.

(** Modelled from the spec: the host's resource-mapping primitive
    [StorPortGetDeviceBase].  Given bus number, physical base, length and
    space kind the host answers with an accessible base, or with [NULL] when
    it cannot map the range.  The adapter and the bus type [PCIBus], which
    the code passes as well, are fixed and left out. *)
Definition StorPortGetDeviceBase (p : platform) (bus pa len : Z) (InIoSpace : bool) : drv Z :=
  fun m =>
    Done (ULONG_PTR p (hd NULL (host_replies m)))
         (host_step (GetDeviceBaseCall bus pa len InIoSpace) true m).

(** Modelled from the spec: [RtlZeroMemory (ptr, size)], the kernel's
    zero-fill; the [size] bytes from [ptr] on become zero. *)
Definition RtlZeroMemory (ptr size : Z) : drv unit :=
  fun m =>
    Done tt (set_ram (fun a => if (ptr <=? a) && (a <? ptr + size) then 0 else ram m a) m).

(** Modelled from the spec: [PAGE_SIZE], a constant of the kernel headers;
    pages have 4 KiB. *)
Definition PAGE_SIZE : Z := 0x1000.

(** Modelled from the spec: [PCI_TYPE0_ADDRESSES], a constant of the kernel
    headers; the number of BARs of a PCI function, which is the size of the
    BAR table. *)
Definition PCI_TYPE0_ADDRESSES : Z := 6.

(** Modelled from the spec: [ROUND_TO_PAGES], a macro of the kernel headers
    that rounds a size up to a whole number of pages; there it is
    [(((ULONG_PTR)(Size) + PAGE_SIZE - 1) & ~(PAGE_SIZE - 1))]. *)
Definition ROUND_TO_PAGES (p : platform) (Size : Z) : Z :=
  Z.land (ULONG_PTR p (ULONG_PTR p Size + PAGE_SIZE - 1))
         (ULONG_PTR p (Z.lnot (PAGE_SIZE - 1))).

(** ** Register access (virtio_pci.c, lines 34-88) *)

Definition PORT_MASK : Z := 0xFFFF.

Definition ReadVirtIODeviceRegister (p : platform) (ulRegister : Z) : drv Z :=
  if nonzero (Z.land ulRegister (ULONG_PTR p (Z.lnot PORT_MASK))) then
    StorPortReadRegisterUlong ulRegister
  else
    StorPortReadPortUlong ulRegister.

Definition WriteVirtIODeviceRegister (p : platform) (ulRegister ulValue : Z) : drv unit :=
  if nonzero (Z.land ulRegister (ULONG_PTR p (Z.lnot PORT_MASK))) then
    StorPortWriteRegisterUlong ulRegister (ULONG ulValue)
  else
    StorPortWritePortUlong ulRegister (ULONG ulValue).

Definition ReadVirtIODeviceByte (p : platform) (ulRegister : Z) : drv Z :=
  if nonzero (Z.land ulRegister (ULONG_PTR p (Z.lnot PORT_MASK))) then
    StorPortReadRegisterUchar ulRegister
  else
    StorPortReadPortUchar ulRegister.

Definition WriteVirtIODeviceByte (p : platform) (ulRegister bValue : Z) : drv unit :=
  if nonzero (Z.land ulRegister (ULONG_PTR p (Z.lnot PORT_MASK))) then
    StorPortWriteRegisterUchar ulRegister (UCHAR bValue)
  else
    StorPortWritePortUchar ulRegister (UCHAR bValue).

Definition ReadVirtIODeviceWord (p : platform) (ulRegister : Z) : drv Z :=
  if nonzero (Z.land ulRegister (ULONG_PTR p (Z.lnot PORT_MASK))) then
    StorPortReadRegisterUshort ulRegister
  else
    StorPortReadPortUshort ulRegister.

Definition WriteVirtIODeviceWord (p : platform) (ulRegister wValue : Z) : drv unit :=
  if nonzero (Z.land ulRegister (ULONG_PTR p (Z.lnot PORT_MASK))) then
    StorPortWriteRegisterUshort ulRegister (USHORT wValue)
  else
    StorPortWritePortUshort ulRegister (USHORT wValue).

(** ** Contiguous-page allocator (lines 90-114) *)

(** The debug print of the failure branch has no effect on the machine and
    is left out. *)
Definition mem_alloc_contiguous_pages (p : platform) (size : Z) : drv Z :=
  adaptExt ← get_adapter;
  let ptr := ULONG_PTR p (ULONG_PTR p (pageAllocationVa adaptExt) + pageOffset adaptExt) in
  if size_t p (pageOffset adaptExt + size) <=? pageAllocationSize adaptExt then
    let size := ROUND_TO_PAGES p size in
    put_adapter (set_pageOffset (ULONG (pageOffset adaptExt + size)) adaptExt);;
    RtlZeroMemory ptr size;;
    mret ptr
  else
    mret NULL.

Definition mem_free_contiguous_pages (virt : Z) : drv unit := mret tt.

(** ** PCI configuration snapshot (lines 135-154) *)

(** Reading [n] consecutive bytes of an array from index [i] on. *)
Fixpoint load_bytes (buf : list Z) (i : Z) (n : nat) : drv (list Z) :=
  match n with
  | O => mret []
  | S n' => b ← index buf i; bs ← load_bytes buf (i + 1) n'; mret (b :: bs)
  end.

(** [*(T * )&buf[i]] for an unsigned [T] of [n] bytes, on a little-endian
    machine (x86 and amd64 both are). *)
Definition load_le (buf : list Z) (i : Z) (n : nat) : drv Z :=
  bs ← load_bytes buf i n; mret (little_endian_to_Z 8 bs).

(** The C functions return 0 and store the value through their last
    argument; the model returns both. *)
Definition pci_read_config_byte (where_ : Z) : drv (Z * Z) :=
  adaptExt ← get_adapter;
  bVal ← index (pci_config_buf adaptExt) where_;
  mret (0, bVal).

Definition pci_read_config_word (where_ : Z) : drv (Z * Z) :=
  adaptExt ← get_adapter;
  wVal ← load_le (pci_config_buf adaptExt) where_ 2;
  mret (0, wVal).

Definition pci_read_config_dword (where_ : Z) : drv (Z * Z) :=
  adaptExt ← get_adapter;
  dwVal ← load_le (pci_config_buf adaptExt) where_ 4;
  mret (0, dwVal).

(** ** BAR table (lines 156-193) *)

Definition pci_get_resource_len (bar : Z) : drv Z :=
  adaptExt ← get_adapter;
  if bar <? PCI_TYPE0_ADDRESSES then
    pBar ← index (pci_bars adaptExt) bar;
    mret (uLength pBar)
  else
    mret 0.

(** [pBar] points into the table, so the store to [pBar->pBase] updates the
    table entry in place. *)
Definition pci_map_address_range (p : platform) (bar offset maxlen : Z) : drv Z :=
  adaptExt ← get_adapter;
  if bar <? PCI_TYPE0_ADDRESSES then
    pBar ← index (pci_bars adaptExt) bar;
    pBar ← (if pBase pBar =? NULL then
              base ← StorPortGetDeviceBase p
                       (system_io_bus_number adaptExt)
                       (BasePA pBar)
                       (uLength pBar)
                       (negb (negb (bPortSpace pBar)));
              put_adapter
                (set_pci_bars (<[Z.to_nat bar := set_pBase base pBar]> (pci_bars adaptExt))
                              adaptExt);;
              mret (set_pBase base pBar)
            else
              mret pBar);
    if negb (pBase pBar =? NULL) && (offset <? uLength pBar) then
      mret (ULONG_PTR p (pBase pBar + offset))
    else
      mret NULL
  else
    mret NULL.

Definition pci_unmap_address_range (address : Z) : drv unit := mret tt.

(** ** MSI-X vectors (lines 195-213) *)

Section MsixVector.

(** [VIRTIO_MSI_NO_VECTOR], the "no vector" sentinel, is a macro of a header
    that is not available; the function is modelled for any value of it. *)
Variable VIRTIO_MSI_NO_VECTOR : Z.

Definition vdev_get_msix_vector (queue : Z) : drv Z :=
  adaptExt ← get_adapter;
  if queue >=? 0 then
    if msix_enabled adaptExt then
      mret (u16 (int (queue + 1)))
    else
      mret (u16 VIRTIO_MSI_NO_VECTOR)
  else
    mret (u16 VIRTIO_MSI_NO_VECTOR).

End MsixVector.

(** ** Running the callbacks *)

(** The value a call returns and the machine it leaves, when it returns. *)
Definition returned {A : Type} (o : outcome A) : option A :=
  match o with Done a _ => Some a | AccessOutsideObject => None end.

Definition final {A : Type} (o : outcome A) : option machine :=
  match o with Done _ m => Some m | AccessOutsideObject => None end.

(** One allocation as the ring engine sees it: the size it asked for, the
    pointer it got and the machine at the moment of return. *)
Record allocation : Type := {
  requested : Z;
  block : Z;
  at_return : machine
}.

(** A sequence of allocation requests, in order. *)
Fixpoint alloc_sequence (p : platform) (sizes : list Z) (m : machine) : list allocation :=
  match sizes with
  | [] => []
  | size :: rest =>
      match mem_alloc_contiguous_pages p size m with
      | Done ptr m' =>
          {| requested := size; block := ptr; at_return := m' |}
            :: alloc_sequence p rest m'
      | AccessOutsideObject => []
      end
  end.

(** The number of [StorPortGetDeviceBase] requests among the host calls. *)
Definition is_mapping_request (c : host_call) : bool :=
  match c with GetDeviceBaseCall _ _ _ _ => true | _ => false end.

Definition mapping_requests (m : machine) : nat :=
  length (filter (fun c => is_mapping_request c = true) (host_calls m)).

(** ** Vocabulary of the specification *)

(** A size rounded up to a whole number of pages, over the integers. *)
Definition round_up_pages (size : Z) : Z :=
  (size + PAGE_SIZE - 1) / PAGE_SIZE * PAGE_SIZE.

Definition page_aligned (a : Z) : Prop := a mod PAGE_SIZE = 0.

(** The cumulative page-rounded size of a sequence of requests. *)
Definition total_rounded (sizes : list Z) : Z :=
  foldr (fun size acc => round_up_pages size + acc) 0 sizes.

(** The bytes [ptr, ptr + len) of memory are all zero. *)
Definition zero_filled (m : machine) (ptr len : Z) : Prop :=
  forall a, ptr <= a < ptr + len -> ram m a = 0.

(** Two address ranges, given by base and length, share a byte. *)
Definition ranges_overlap (b1 l1 b2 l2 : Z) : Prop :=
  exists a, (b1 <= a < b1 + l1) /\ (b2 <= a < b2 + l2).

(** The DMA extent is a region of the address space (as for any C object,
    the address one past its end is an address too) and its cursor and size
    are [ULONG]s. *)
Definition extent_wf (p : platform) (a : ADAPTER_EXTENSION) : Prop :=
  0 <= pageAllocationVa a /\
  pageAllocationVa a + pageAllocationSize a < 2 ^ ptr_bits p /\
  is_unsigned 32 (pageAllocationSize a) /\
  is_unsigned 32 (pageOffset a).

(** The machine a successful allocation of [size] bytes leaves: the cursor
    advanced by the page-rounded size and the block zeroed. *)
Definition after_alloc (size : Z) (m : machine) : machine :=
  let ptr := pageAllocationVa (adapter m) + pageOffset (adapter m) in
  set_ram (fun a => if (ptr <=? a) && (a <? ptr + round_up_pages size) then 0
                    else ram m a)
    (set_adapter
       (set_pageOffset (pageOffset (adapter m) + round_up_pages size) (adapter m)) m).

(** The machine left by the call that maps BAR [bar], whose entry [b] has
    no mapped base yet: the host has been asked once and its answer is
    stored in the entry. *)
Definition after_map (p : platform) (bar : Z) (b : VIRTIO_BAR) (m : machine) : machine :=
  set_adapter
    (set_pci_bars
       (<[Z.to_nat bar := set_pBase (ULONG_PTR p (hd NULL (host_replies m))) b]>
          (pci_bars (adapter m)))
       (adapter m))
    (host_step
       (GetDeviceBaseCall (system_io_bus_number (adapter m)) (BasePA b) (uLength b)
          (negb (negb (bPortSpace b))))
       true m).

(** A pointer lies within the extent [[base, base + size)]. *)
Definition within_extent (a : ADAPTER_EXTENSION) (ptr : Z) : Prop :=
  pageAllocationVa a <= ptr < pageAllocationVa a + pageAllocationSize a.

(** The premises of the allocation-sequence property: a page-aligned extent
    with its cursor at 0, and requests whose cumulative page-rounded size is
    at most the extent size. *)
Definition allocation_plan (p : platform) (m : machine) (sizes : list Z) : Prop :=
  extent_wf p (adapter m) /\
  pageOffset (adapter m) = 0 /\
  page_aligned (pageAllocationVa (adapter m)) /\
  Forall (fun size => 0 <= size) sizes /\
  total_rounded sizes <= pageAllocationSize (adapter m).

(** The configuration snapshot is an array of [UCHAR]. *)
Definition config_wf (a : ADAPTER_EXTENSION) : Prop :=
  Forall (is_unsigned 8) (pci_config_buf a).

(** The BAR table has [PCI_TYPE0_ADDRESSES] entries. *)
Definition bars_wf (a : ADAPTER_EXTENSION) : Prop :=
  Z.of_nat (length (pci_bars a)) = PCI_TYPE0_ADDRESSES.

(** A BAR index that designates an entry of the table. *)
Definition valid_bar (bar : Z) : Prop := 0 <= bar < PCI_TYPE0_ADDRESSES.

(** The little-endian composition of bytes, over the integers. *)
Fixpoint le_compose (bs : list Z) : Z :=
  match bs with
  | [] => 0
  | b :: rest => b + 256 * le_compose rest
  end.

(** ** Concrete machines used in the scenarios *)

Definition no_bar : VIRTIO_BAR :=
  {| BasePA := 0; uLength := 0; pBase := NULL; bPortSpace := false |}.

(** BAR 0 is a memory BAR of length 0x1000 at 0xFEBC0000, not yet mapped. *)
Definition bar0_unmapped : VIRTIO_BAR :=
  {| BasePA := 0xFEBC0000; uLength := 0x1000; pBase := NULL; bPortSpace := false |}.

(** A configuration snapshot of 256 bytes whose bytes 0x2E and 0x2F are
    0x34 and 0x12. *)
Definition config_snapshot : list Z :=
  replicate 46 0 ++ [0x34; 0x12] ++ replicate 208 0.

(** An adapter with a DMA extent of three pages at 0x200000, cursor at 0. *)
Definition adapter3 (msix : bool) : ADAPTER_EXTENSION :=
  {| pageAllocationVa := 0x200000;
     pageAllocationSize := 3 * PAGE_SIZE;
     pageOffset := 0;
     system_io_bus_number := 0;
     pci_config_buf := config_snapshot;
     pci_bars := bar0_unmapped :: replicate 5 no_bar;
     msix_enabled := msix |}.

(** Memory full of 0xCC bytes, so that zero-filling is visible. *)
Definition machine3 (msix : bool) (replies : list Z) : machine :=
  {| adapter := adapter3 msix;
     ram := fun _ => 0xCC;
     host_replies := replies;
     host_calls := [] |}.

(** ** The remaining callbacks and further vocabulary *)

(** [mem_free_nonpaged_block] does nothing, like its page counterpart. *)
Definition mem_free_nonpaged_block (addr : Z) : drv unit := mret tt.

Section Sleep.

(** [KeStallExecutionProcessor (MicroSeconds)], the kernel's busy wait, is
    outside this file; [vdev_sleep] is modelled for any behaviour of it. *)
Variable KeStallExecutionProcessor : Z -> drv unit.

(** [1000 * msecs] is computed in [unsigned int], the type of [msecs]. *)
Definition vdev_sleep (msecs : Z) : drv unit :=
  KeStallExecutionProcessor (u32 (1000 * msecs)).

End Sleep.

(** A stand-in for the busy wait that notes the time it was asked for at
    address 0 of memory, so that stalls of different length differ. *)
Definition stall_noting (us : Z) : drv unit :=
  fun m => Done tt (set_ram (fun a => if a =? 0 then us else ram m a) m).

(** A sequence of [pci_map_address_range] calls, each given as
    (bar, offset, maxlen), run in order; the pointers returned. *)
Fixpoint map_sequence (p : platform) (calls : list (Z * Z * Z)) : drv (list Z) :=
  match calls with
  | [] => mret []
  | (bar, offset, maxlen) :: rest =>
      r ← pci_map_address_range p bar offset maxlen;
      rs ← map_sequence p rest;
      mret (r :: rs)
  end.

(** The number of BAR entries without a mapped base. *)
Fixpoint unmapped (bars : list VIRTIO_BAR) : nat :=
  match bars with
  | [] => O
  | b :: rest => ((if Z.eqb (pBase b) NULL then 1 else 0) + unmapped rest)%nat
  end.

(** The allocator's cursor invariant on an extent of whole pages. *)
Definition cursor_invariant (p : platform) (a : ADAPTER_EXTENSION) : Prop :=
  extent_wf p a /\
  page_aligned (pageAllocationSize a) /\
  page_aligned (pageOffset a) /\
  pageOffset a <= pageAllocationSize a.

(** Two adapters that differ in the cursor at most. *)
Definition same_but_cursor (a a' : ADAPTER_EXTENSION) : Prop :=
  pageAllocationVa a' = pageAllocationVa a /\
  pageAllocationSize a' = pageAllocationSize a /\
  system_io_bus_number a' = system_io_bus_number a /\
  pci_config_buf a' = pci_config_buf a /\
  pci_bars a' = pci_bars a /\
  msix_enabled a' = msix_enabled a.

(** Two BAR entries that differ in the mapped base at most. *)
Definition same_but_pBase (b b' : VIRTIO_BAR) : Prop :=
  BasePA b' = BasePA b /\ uLength b' = uLength b /\ bPortSpace b' = bPortSpace b.

(** A call that returned, as opposed to one that left its object. *)
Definition returns {A : Type} (o : outcome A) : Prop :=
  match o with Done _ _ => True | AccessOutsideObject => False end.

(** A three-page adapter whose BAR 0 is mapped at 0xFFFFF78000000000. *)
Definition adapter_mapped : ADAPTER_EXTENSION :=
  set_pci_bars (set_pBase 0xFFFFF78000000000 bar0_unmapped :: replicate 5 no_bar)
    (adapter3 true).

Definition machine_mapped : machine :=
  set_adapter adapter_mapped (machine3 true []).

(** An adapter whose extent of 5000 bytes is not a whole number of pages. *)
Definition adapter_5000 : ADAPTER_EXTENSION :=
  {| pageAllocationVa := 0x200000;
     pageAllocationSize := 5000;
     pageOffset := 0;
     system_io_bus_number := 0;
     pci_config_buf := config_snapshot;
     pci_bars := bar0_unmapped :: replicate 5 no_bar;
     msix_enabled := true |}.

Definition machine_5000 : machine :=
  set_adapter adapter_5000 (machine3 true []).

(** * Properties *)

(** ** Integer conversions and masks *)

Lemma ptr_bits_cases (p : platform) : ptr_bits p = 32 \/ ptr_bits p = 64.
Proof. destruct p; [left | right]; reflexivity. Qed.

Lemma ptr_bits_pos (p : platform) : 0 < ptr_bits p.
Proof. destruct p; reflexivity. Qed.

Lemma to_unsigned_small (bits x : Z) :
  is_unsigned bits x -> to_unsigned bits x = x.
Proof. intros H. apply Z.mod_small, H. Qed.

Lemma ULONG_PTR_small (p : platform) (x : Z) :
  is_ULONG_PTR p x -> ULONG_PTR p x = x.
Proof. apply to_unsigned_small. Qed.

Lemma ulong_is_ULONG_PTR (p : platform) (x : Z) :
  is_unsigned 32 x -> is_ULONG_PTR p x.
Proof.
  unfold is_ULONG_PTR, is_unsigned. intros H.
  destruct p; simpl; lia.
Qed.

(** Converting a mask to an unsigned type of [w] bits does not change what it
    selects from a value of that type. *)
Lemma land_mask_unsigned (w a mask : Z) :
  0 <= w -> is_unsigned w a -> Z.land a (to_unsigned w mask) = Z.land a mask.
Proof.
  unfold is_unsigned, to_unsigned. intros Hw Ha.
  apply Z.bits_inj'. intros n Hn. rewrite !Z.land_spec.
  destruct (Z.lt_ge_cases n w) as [Hlt | Hge].
  - now rewrite Z.mod_pow2_bits_low by lia.
  - assert (Z.testbit a n = false) as ->; [| reflexivity].
    rewrite <- (Z.mod_small a (2 ^ w)) by lia.
    apply Z.mod_pow2_bits_high. lia.
Qed.

(** Masking with the complement of [2^k - 1] clears the low [k] bits. *)
Lemma land_lnot_ones (k a : Z) :
  0 <= k -> Z.land a (Z.lnot (Z.ones k)) = a / 2 ^ k * 2 ^ k.
Proof.
  intros Hk.
  rewrite <- Z.ldiff_land, Z.ldiff_ones_r by lia.
  now rewrite Z.shiftl_mul_pow2, Z.shiftr_div_pow2 by lia.
Qed.

Lemma high_bits_iff (a : Z) :
  0 <= a -> (Z.land a (Z.lnot 0xFFFF) <> 0 <-> 2 ^ 16 <= a).
Proof.
  intros Ha. change 0xFFFF with (Z.ones 16).
  rewrite land_lnot_ones by lia.
  change (2 ^ 16) with 65536. split; intros H.
  - destruct (Z.lt_ge_cases a 65536) as [Hlt | ]; [| assumption].
    rewrite Z.div_small in H by lia. lia.
  - assert (1 <= a / 65536) by (apply Z.div_le_lower_bound; lia). lia.
Qed.

(** The condition the six register accessors branch on. *)
Lemma register_space_test (p : platform) (a : Z) :
  is_ULONG_PTR p a ->
  nonzero (Z.land a (ULONG_PTR p (Z.lnot PORT_MASK))) =
  bool_decide (Z.land a (Z.lnot 0xFFFF) <> 0).
Proof.
  intros Ha. unfold ULONG_PTR, PORT_MASK.
  rewrite land_mask_unsigned by (pose proof (ptr_bits_pos p); auto with zarith).
  unfold nonzero.
  destruct (Z.eqb_spec (Z.land a (Z.lnot 65535)) 0) as [E | E]; simpl.
  - symmetry. apply bool_decide_eq_false. intros H. now apply H.
  - symmetry. now apply bool_decide_eq_true.
Qed.

(** ** Register access *)

(** The address space an address designates, in the words of the
    specification: memory (register) space when a bit above the low 16 is
    set, port space otherwise. *)
Lemma space_of_address (a : Z) :
  exists sp : io_space,
    (sp = RegisterSpace <-> Z.land a (Z.lnot 0xFFFF) <> 0) /\
    (sp = PortSpace <-> Z.land a (Z.lnot 0xFFFF) = 0) /\
    sp = (if bool_decide (Z.land a (Z.lnot 0xFFFF) <> 0) then RegisterSpace else PortSpace).
Proof.
  destruct (decide (Z.land a (Z.lnot 0xFFFF) <> 0)) as [H | H].
  - exists RegisterSpace. rewrite bool_decide_eq_true_2 by assumption.
    repeat split; intros; try assumption; try discriminate; contradiction.
  - exists PortSpace. rewrite bool_decide_eq_false_2 by assumption.
    assert (Z.land a (Z.lnot 65535) = 0) by (destruct (decide (Z.land a (Z.lnot 65535) = 0)); [assumption | contradiction]).
    repeat split; intros; try assumption; try discriminate; try reflexivity; contradiction.
Qed.

(** C5.  For every address [a] and every access width, the read and the
    write accessor both issue a register-space (memory-mapped) access exactly
    when [a & ~0xFFFF] is not zero and a port-space access otherwise; the
    accessor is the host primitive of that space and width applied to the
    same address and value, so the value read or written passes through
    unchanged. *)
Theorem register_access_dispatch
    (p : platform) (a vb vw vd : Z) (m : machine) :
  is_ULONG_PTR p a ->
  is_unsigned 8 vb -> is_unsigned 16 vw -> is_unsigned 32 vd ->
  exists sp : io_space,
    (sp = RegisterSpace <-> Z.land a (Z.lnot 0xFFFF) <> 0) /\
    (sp = PortSpace <-> Z.land a (Z.lnot 0xFFFF) = 0) /\
    ReadVirtIODeviceByte p a m = StorPortRead sp Uchar a m /\
    ReadVirtIODeviceWord p a m = StorPortRead sp Ushort a m /\
    ReadVirtIODeviceRegister p a m = StorPortRead sp Ulong a m /\
    WriteVirtIODeviceByte p a vb m = StorPortWrite sp Uchar a vb m /\
    WriteVirtIODeviceWord p a vw m = StorPortWrite sp Ushort a vw m /\
    WriteVirtIODeviceRegister p a vd m = StorPortWrite sp Ulong a vd m.
Proof.
  intros Ha Hb Hw Hd.
  destruct (space_of_address a) as (sp & Hreg & Hport & Hsp).
  exists sp. split; [exact Hreg |]. split; [exact Hport |].
  unfold ReadVirtIODeviceByte, ReadVirtIODeviceWord, ReadVirtIODeviceRegister,
    WriteVirtIODeviceByte, WriteVirtIODeviceWord, WriteVirtIODeviceRegister.
  rewrite (register_space_test p a Ha).
  unfold UCHAR, USHORT, ULONG, u8, u16, u32.
  rewrite (to_unsigned_small 8 vb Hb), (to_unsigned_small 16 vw Hw),
    (to_unsigned_small 32 vd Hd).
  subst sp. destruct (bool_decide (Z.land a (Z.lnot 65535) <> 0));
    repeat split; reflexivity.
Qed.

(** An instance: a memory-mapped register at 0xFEBC0014 on x64. *)
Lemma register_access_dispatch_witness :
  exists sp : io_space,
    (sp = RegisterSpace <-> Z.land 0xFEBC0014 (Z.lnot 0xFFFF) <> 0) /\
    (sp = PortSpace <-> Z.land 0xFEBC0014 (Z.lnot 0xFFFF) = 0) /\
    ReadVirtIODeviceByte x64 0xFEBC0014 (machine3 true [0x5A]) =
      StorPortRead sp Uchar 0xFEBC0014 (machine3 true [0x5A]) /\
    ReadVirtIODeviceWord x64 0xFEBC0014 (machine3 true [0x5A]) =
      StorPortRead sp Ushort 0xFEBC0014 (machine3 true [0x5A]) /\
    ReadVirtIODeviceRegister x64 0xFEBC0014 (machine3 true [0x5A]) =
      StorPortRead sp Ulong 0xFEBC0014 (machine3 true [0x5A]) /\
    WriteVirtIODeviceByte x64 0xFEBC0014 0x7F (machine3 true [0x5A]) =
      StorPortWrite sp Uchar 0xFEBC0014 0x7F (machine3 true [0x5A]) /\
    WriteVirtIODeviceWord x64 0xFEBC0014 0x1234 (machine3 true [0x5A]) =
      StorPortWrite sp Ushort 0xFEBC0014 0x1234 (machine3 true [0x5A]) /\
    WriteVirtIODeviceRegister x64 0xFEBC0014 0xDEADBEEF (machine3 true [0x5A]) =
      StorPortWrite sp Ulong 0xFEBC0014 0xDEADBEEF (machine3 true [0x5A]).
Proof.
  apply (register_access_dispatch x64 0xFEBC0014 0x7F 0x1234 0xDEADBEEF);
    unfold is_ULONG_PTR, is_unsigned; simpl; lia.
Defined.

(** Both spaces are reached: a legacy port at 0xC040 and a mapped register. *)
Example read_port_0xC040 :
  ReadVirtIODeviceWord x64 0xC040 (machine3 true [0x1234]) =
  StorPortReadPortUshort 0xC040 (machine3 true [0x1234]).
Proof. reflexivity. Qed.

Example read_register_0x10000 :
  ReadVirtIODeviceWord Win32 0x10000 (machine3 true [0x1234]) =
  StorPortReadRegisterUshort 0x10000 (machine3 true [0x1234]).
Proof. reflexivity. Qed.

(** ** Page rounding *)

Lemma round_up_pages_bounds (size : Z) :
  size <= round_up_pages size < size + PAGE_SIZE.
Proof.
  unfold round_up_pages, PAGE_SIZE.
  pose proof (Z.div_mod (size + 4096 - 1) 4096 ltac:(lia)).
  pose proof (Z.mod_pos_bound (size + 4096 - 1) 4096 ltac:(lia)).
  lia.
Qed.

Lemma round_up_pages_aligned (size : Z) : page_aligned (round_up_pages size).
Proof. unfold page_aligned, round_up_pages. apply Z.mod_mul. discriminate. Qed.

Lemma round_up_pages_nonneg (size : Z) : 0 <= size -> 0 <= round_up_pages size.
Proof. pose proof (round_up_pages_bounds size). lia. Qed.

Lemma round_up_pages_fits (size room : Z) :
  page_aligned room -> size <= room -> round_up_pages size <= room.
Proof.
  unfold page_aligned, round_up_pages, PAGE_SIZE. intros Hroom Hle.
  pose proof (Z.div_mod room 4096 ltac:(lia)) as Hr. rewrite Hroom in Hr.
  assert ((size + 4096 - 1) / 4096 < room / 4096 + 1); [| lia].
  apply Z.div_lt_upper_bound; lia.
Qed.

Lemma page_aligned_add (a b : Z) :
  page_aligned a -> page_aligned b -> page_aligned (a + b).
Proof.
  unfold page_aligned, PAGE_SIZE. intros Ha Hb.
  rewrite Z.add_mod, Ha, Hb by lia. reflexivity.
Qed.

(** Without wrap-around the macro is rounding up over the integers. *)
Lemma ROUND_TO_PAGES_exact (p : platform) (size : Z) :
  0 <= size -> size + PAGE_SIZE - 1 < 2 ^ ptr_bits p ->
  ROUND_TO_PAGES p size = round_up_pages size.
Proof.
  intros H0 Hfit. unfold ROUND_TO_PAGES.
  rewrite (ULONG_PTR_small p size) by (unfold is_ULONG_PTR, is_unsigned, PAGE_SIZE in *; lia).
  rewrite (ULONG_PTR_small p (size + PAGE_SIZE - 1))
    by (unfold is_ULONG_PTR, is_unsigned, PAGE_SIZE in *; lia).
  unfold ULONG_PTR at 1.
  rewrite land_mask_unsigned;
    [| pose proof (ptr_bits_pos p); lia
     | unfold is_unsigned, PAGE_SIZE in *; lia ].
  change (PAGE_SIZE - 1) with (Z.ones 12).
  rewrite land_lnot_ones by lia. reflexivity.
Qed.

(** ** The contiguous-page allocator *)

(** The branch the allocator takes, in the arithmetic of the code. *)
Lemma mem_alloc_contiguous_pages_branches (p : platform) (size : Z) (m : machine) :
  mem_alloc_contiguous_pages p size m =
  let ptr := ULONG_PTR p (ULONG_PTR p (pageAllocationVa (adapter m)) + pageOffset (adapter m)) in
  if size_t p (pageOffset (adapter m) + size) <=? pageAllocationSize (adapter m) then
    Done ptr
      (set_ram (fun a => if (ptr <=? a) && (a <? ptr + ROUND_TO_PAGES p size) then 0
                         else ram m a)
         (set_adapter
            (set_pageOffset (ULONG (pageOffset (adapter m) + ROUND_TO_PAGES p size))
               (adapter m)) m))
  else Done NULL m.
Proof.
  unfold mem_alloc_contiguous_pages, mbind, drv_bind, get_adapter. simpl.
  destruct (size_t p (pageOffset (adapter m) + size) <=? pageAllocationSize (adapter m));
    reflexivity.
Qed.

(** A request that fits, rounded size included, succeeds. *)
Lemma mem_alloc_contiguous_pages_fits (p : platform) (size : Z) (m : machine) :
  extent_wf p (adapter m) ->
  0 <= size ->
  pageOffset (adapter m) + round_up_pages size <= pageAllocationSize (adapter m) ->
  mem_alloc_contiguous_pages p size m =
  Done (pageAllocationVa (adapter m) + pageOffset (adapter m)) (after_alloc size m).
Proof.
  intros (Hva & Hext & Hsz & Hoff) H0 Hfit.
  unfold is_unsigned in Hsz, Hoff.
  pose proof (round_up_pages_bounds size) as Hr.
  pose proof (round_up_pages_aligned size) as Hal.
  assert (2 ^ 32 <= 2 ^ ptr_bits p) as Hw by (destruct p; simpl; lia).
  assert (size + PAGE_SIZE - 1 < 2 ^ 32) as Hsmall.
  { unfold page_aligned, PAGE_SIZE in *.
    pose proof (Z.div_mod (round_up_pages size) 4096 ltac:(lia)) as Hd.
    rewrite Hal in Hd. change (2 ^ 32) with (4096 * 1048576) in *. lia. }
  rewrite mem_alloc_contiguous_pages_branches. cbv zeta.
  rewrite (ROUND_TO_PAGES_exact p size) by lia.
  unfold size_t.
  rewrite (ULONG_PTR_small p (pageOffset (adapter m) + size))
    by (unfold is_ULONG_PTR, is_unsigned; lia).
  rewrite (ULONG_PTR_small p (pageAllocationVa (adapter m)))
    by (unfold is_ULONG_PTR, is_unsigned; lia).
  rewrite (ULONG_PTR_small p (pageAllocationVa (adapter m) + pageOffset (adapter m)))
    by (unfold is_ULONG_PTR, is_unsigned; lia).
  unfold ULONG, u32.
  rewrite (to_unsigned_small 32 (pageOffset (adapter m) + round_up_pages size))
    by (unfold is_unsigned; lia).
  destruct (Z.leb_spec (pageOffset (adapter m) + size) (pageAllocationSize (adapter m)));
    [reflexivity | lia].
Qed.

Lemma after_alloc_extent_wf (p : platform) (size : Z) (m : machine) :
  extent_wf p (adapter m) ->
  0 <= size ->
  pageOffset (adapter m) + round_up_pages size <= pageAllocationSize (adapter m) ->
  extent_wf p (adapter (after_alloc size m)).
Proof.
  intros (Hva & Hext & Hsz & Hoff) H0 Hfit.
  pose proof (round_up_pages_nonneg size H0).
  unfold extent_wf, is_unsigned in *. simpl. lia.
Qed.

Lemma after_alloc_zero_filled (size : Z) (m : machine) :
  zero_filled (after_alloc size m)
    (pageAllocationVa (adapter m) + pageOffset (adapter m)) (round_up_pages size).
Proof.
  intros a Ha. unfold after_alloc. simpl.
  rewrite (proj2 (Z.leb_le _ _)), (proj2 (Z.ltb_lt _ _)) by lia. reflexivity.
Qed.

(** What a sequence of requests that fits yields, from any aligned cursor:
    every request is served, every block lies between the cursor and the
    end of the cumulative rounded size, is aligned and zeroed on return, and
    later blocks start where earlier ones end or above. *)
Lemma alloc_sequence_from_cursor (p : platform) (sizes : list Z) :
  forall m : machine,
    extent_wf p (adapter m) ->
    page_aligned (pageAllocationVa (adapter m)) ->
    page_aligned (pageOffset (adapter m)) ->
    Forall (fun size => 0 <= size) sizes ->
    pageOffset (adapter m) + total_rounded sizes <= pageAllocationSize (adapter m) ->
    let start := pageAllocationVa (adapter m) + pageOffset (adapter m) in
    let allocs := alloc_sequence p sizes m in
    map requested allocs = sizes /\
    (forall (i : nat) (a : allocation),
        allocs !! i = Some a ->
        start <= block a /\
        block a + round_up_pages (requested a) <= start + total_rounded sizes /\
        page_aligned (block a) /\
        zero_filled (at_return a) (block a) (round_up_pages (requested a)) /\
        pageAllocationVa (adapter m) + pageOffset (adapter (at_return a)) =
          block a + round_up_pages (requested a)) /\
    (forall (i j : nat) (a b : allocation),
        (i < j)%nat -> allocs !! i = Some a -> allocs !! j = Some b ->
        block a + round_up_pages (requested a) <= block b).
Proof.
  induction sizes as [| size rest IH]; intros m Hwf Hva Hoff Hpos Hfit; cbv zeta.
  - simpl. split; [reflexivity |].
    split; intros; match goal with H : [] !! _ = Some _ |- _ => inversion H end.
  - apply Forall_cons in Hpos as [Hsize Hrest].
    change (total_rounded (size :: rest))
      with (round_up_pages size + total_rounded rest) in *.
    pose proof (round_up_pages_nonneg size Hsize) as Hr.
    assert (0 <= total_rounded rest) as Htot.
    { clear -Hrest. induction Hrest as [| s l Hs _ IHl]; simpl; [lia |].
      pose proof (round_up_pages_nonneg s Hs). lia. }
    simpl alloc_sequence.
    rewrite mem_alloc_contiguous_pages_fits by (try assumption; lia).
    destruct (IH (after_alloc size m)) as (Hmap & Hblocks & Hord).
    + apply after_alloc_extent_wf; try assumption; lia.
    + exact Hva.
    + simpl. apply page_aligned_add; [exact Hoff | apply round_up_pages_aligned].
    + exact Hrest.
    + simpl. lia.
    + simpl in Hblocks, Hord.
      split; [simpl; now rewrite Hmap |].
      split.
      * intros [| i] a Ha; simpl in Ha.
        -- inversion Ha; subst a; simpl.
           split; [lia |]. split; [lia |].
           split; [now apply page_aligned_add |].
           split; [apply after_alloc_zero_filled | lia].
        -- destruct (Hblocks i a Ha) as (H1 & H2 & H3 & H4 & H5).
           repeat split; try assumption; lia.
      * intros [| i] [| j] a b Hij Ha Hb; simpl in Ha, Hb; try lia.
        -- inversion Ha; subst a; simpl.
           destruct (Hblocks j b Hb) as (H1 & _). lia.
        -- apply (Hord i j a b); [lia | assumption | assumption].
Qed.

(** Premises over a concrete machine are settled by evaluation. *)
Ltac concrete_plan :=
  unfold allocation_plan, extent_wf, is_unsigned, page_aligned; simpl;
  unfold PAGE_SIZE; repeat split; try reflexivity; try lia;
  repeat (constructor; try lia).

(** C2, as amended.  For every sequence of requests on a page-aligned extent
    with its cursor at 0, whose cumulative page-rounded size is at most the
    extent size: every call returns a block; the block and its page-rounded
    range lie inside the extent, so the pointer is in [[base, base + size)]
    whenever the request is not empty; the pointer is page-aligned; its
    range is zero-filled on return and the cursor then stands at its end;
    and no two blocks' ranges overlap. *)
Theorem alloc_sequence_within_extent
    (p : platform) (m : machine) (sizes : list Z) :
  allocation_plan p m sizes ->
  let allocs := alloc_sequence p sizes m in
  map requested allocs = sizes /\
  (forall (i : nat) (a : allocation),
      allocs !! i = Some a ->
      pageAllocationVa (adapter m) <= block a /\
      block a + round_up_pages (requested a)
        <= pageAllocationVa (adapter m) + pageAllocationSize (adapter m) /\
      (0 < requested a -> within_extent (adapter m) (block a)) /\
      page_aligned (block a) /\
      zero_filled (at_return a) (block a) (round_up_pages (requested a)) /\
      pageAllocationVa (adapter m) + pageOffset (adapter (at_return a)) =
        block a + round_up_pages (requested a)) /\
  (forall (i j : nat) (a b : allocation),
      i <> j -> allocs !! i = Some a -> allocs !! j = Some b ->
      ~ ranges_overlap (block a) (round_up_pages (requested a))
                       (block b) (round_up_pages (requested b))).
Proof.
  intros (Hwf & Hzero & Hva & Hpos & Hfit). cbv zeta.
  destruct (alloc_sequence_from_cursor p sizes m) as (Hmap & Hblocks & Hord);
    try assumption.
  { rewrite Hzero. reflexivity. }
  { rewrite Hzero. lia. }
  rewrite Hzero in Hblocks. simpl in Hblocks, Hord.
  split; [exact Hmap |]. split.
  - intros i a Ha. destruct (Hblocks i a Ha) as (H1 & H2 & H3 & H4 & H5).
    pose proof (round_up_pages_bounds (requested a)).
    unfold within_extent. repeat split; try assumption; lia.
  - intros i j a b Hij Ha Hb (x & Hxa & Hxb).
    destruct (Nat.lt_total i j) as [Hlt | [Heq | Hgt]]; [| contradiction |].
    + pose proof (Hord i j a b Hlt Ha Hb). lia.
    + pose proof (Hord j i b a Hgt Hb Ha). lia.
Qed.

(** The three-page scenario is an instance. *)
Lemma alloc_sequence_within_extent_witness :
  allocation_plan x64 (machine3 true []) [4000; 4000; 4000] /\
  map block (alloc_sequence x64 [4000; 4000; 4000] (machine3 true [])) =
    [0x200000; 0x201000; 0x202000] /\
  (forall (i j : nat) (a b : allocation),
      i <> j ->
      alloc_sequence x64 [4000; 4000; 4000] (machine3 true []) !! i = Some a ->
      alloc_sequence x64 [4000; 4000; 4000] (machine3 true []) !! j = Some b ->
      ~ ranges_overlap (block a) (round_up_pages (requested a))
                       (block b) (round_up_pages (requested b))).
Proof.
  assert (allocation_plan x64 (machine3 true []) [4000; 4000; 4000]) as Hplan.
  { concrete_plan. }
  split; [exact Hplan |]. split; [reflexivity |].
  apply (alloc_sequence_within_extent x64 (machine3 true []) [4000; 4000; 4000] Hplan).
Defined.

(** C2 as stated fails for an empty request: once the extent is used up, a
    request of size 0 still succeeds and returns the address one past the
    end of the extent, which is not in [[base, base + size)]. *)
Lemma alloc_zero_size_past_extent :
  ~ (forall (p : platform) (m : machine) (sizes : list Z),
        allocation_plan p m sizes ->
        forall (i : nat) (a : allocation),
          alloc_sequence p sizes m !! i = Some a ->
          within_extent (adapter m) (block a)).
Proof.
  intros Hclaim.
  assert (allocation_plan x64 (machine3 true []) [3 * PAGE_SIZE; 0]) as Hplan.
  { concrete_plan. }
  edestruct (Hclaim x64 (machine3 true []) [3 * PAGE_SIZE; 0] Hplan 1%nat)
    as [_ Hlt]; [reflexivity |].
  vm_compute in Hlt. discriminate Hlt.
Qed.

(** When [pageOffset + size] does not wrap around, the test the allocator
    makes is the comparison over the integers: on an extent of whole pages
    with an aligned cursor, the call succeeds exactly when the request fits,
    returns the address at the old cursor, advances the cursor by the
    page-rounded size and zeroes the block; otherwise it returns [NULL] and
    leaves the machine as it was. *)
Lemma mem_alloc_contiguous_pages_no_wrap (p : platform) (size : Z) (m : machine) :
  extent_wf p (adapter m) ->
  page_aligned (pageAllocationSize (adapter m)) ->
  page_aligned (pageOffset (adapter m)) ->
  0 <= size ->
  pageOffset (adapter m) + size < 2 ^ ptr_bits p ->
  mem_alloc_contiguous_pages p size m =
  if decide (pageOffset (adapter m) + size <= pageAllocationSize (adapter m)) then
    Done (pageAllocationVa (adapter m) + pageOffset (adapter m)) (after_alloc size m)
  else Done NULL m.
Proof.
  intros Hwf Hsz Hoff H0 Hnowrap.
  destruct (decide (pageOffset (adapter m) + size <= pageAllocationSize (adapter m)))
    as [Hfit | Hover].
  - apply mem_alloc_contiguous_pages_fits; try assumption.
    assert (round_up_pages size
            <= pageAllocationSize (adapter m) - pageOffset (adapter m)); [| lia].
    apply round_up_pages_fits; [| lia].
    unfold page_aligned, PAGE_SIZE in *.
    rewrite Zminus_mod, Hsz, Hoff. reflexivity.
  - destruct Hwf as (_ & _ & _ & Hcur). unfold is_unsigned in Hcur.
    rewrite mem_alloc_contiguous_pages_branches. cbv zeta. unfold size_t.
    rewrite ULONG_PTR_small by (unfold is_ULONG_PTR, is_unsigned; lia).
    destruct (Z.leb_spec (pageOffset (adapter m) + size) (pageAllocationSize (adapter m)));
      [lia | reflexivity].
Qed.

(** The three-page scenario: three requests of 4000 bytes succeed and move
    the cursor to 4096, 8192 and 12288. *)
Example three_requests_of_4000 (p : platform) :
  map (fun a => (block a, pageOffset (adapter (at_return a))))
      (alloc_sequence p [4000; 4000; 4000] (machine3 true [])) =
  [(0x200000, 4096); (0x201000, 8192); (0x202000, 12288)].
Proof. destruct p; reflexivity. Qed.

(** On the full extent a further request fails as long as the sum of cursor
    and size does not wrap around. *)
Lemma full_extent_rejects (p : platform) (size : Z) (m : machine) :
  extent_wf p (adapter m) ->
  pageOffset (adapter m) = pageAllocationSize (adapter m) ->
  0 < size ->
  pageOffset (adapter m) + size < 2 ^ ptr_bits p ->
  mem_alloc_contiguous_pages p size m = Done NULL m.
Proof.
  intros (_ & _ & _ & Hcur) Hfull Hsize Hnowrap. unfold is_unsigned in Hcur.
  rewrite mem_alloc_contiguous_pages_branches. cbv zeta. unfold size_t.
  rewrite ULONG_PTR_small by (unfold is_ULONG_PTR, is_unsigned; lia).
  destruct (Z.leb_spec (pageOffset (adapter m) + size) (pageAllocationSize (adapter m)));
    [lia | reflexivity].
Qed.

(** C1.  The code at the failing input: with the three-page extent used up
    by three requests of 4000 bytes, a fourth request of [2^64 - 12288] bytes
    on x64 (of [2^32 - 12288] on Win32), a size greater than 0 that does not
    fit, makes [pageOffset + size] wrap around to 0, so the test passes: the
    call returns the address one past the extent instead of [NULL] and the
    cursor falls back to 0. *)
Theorem alloc_size_wraps_on_full_extent :
  (is_ULONG_PTR x64 (2 ^ 64 - 12288) /\
   pageAllocationSize (adapter3 true) < 12288 + (2 ^ 64 - 12288) /\
   map (fun a => (block a, pageOffset (adapter (at_return a))))
       (alloc_sequence x64 [4000; 4000; 4000; 2 ^ 64 - 12288] (machine3 true [])) =
     [(0x200000, 4096); (0x201000, 8192); (0x202000, 12288); (0x203000, 0)]) /\
  (is_ULONG_PTR Win32 (2 ^ 32 - 12288) /\
   pageAllocationSize (adapter3 true) < 12288 + (2 ^ 32 - 12288) /\
   map (fun a => (block a, pageOffset (adapter (at_return a))))
       (alloc_sequence Win32 [4000; 4000; 4000; 2 ^ 32 - 12288] (machine3 true [])) =
     [(0x200000, 4096); (0x201000, 8192); (0x202000, 12288); (0x203000, 0)]) /\
  0x203000 <> NULL /\
  0x203000 = pageAllocationVa (adapter3 true) + pageAllocationSize (adapter3 true).
Proof.
  unfold is_ULONG_PTR, is_unsigned. simpl ptr_bits.
  repeat split; try reflexivity; try discriminate.
Qed.

(** The failure branch of the allocator: when the test of the code fails,
    that is when [pageOffset + size], computed in [size_t], exceeds
    [pageAllocationSize], the call returns [NULL] and leaves the whole
    machine, the cursor in particular, as it was; so repeating the request
    fails in the same way. *)
Lemma alloc_failure_is_atomic (p : platform) (size : Z) (m : machine) :
  pageAllocationSize (adapter m) < size_t p (pageOffset (adapter m) + size) ->
  mem_alloc_contiguous_pages p size m = Done NULL m /\
  (forall m' : machine,
      final (mem_alloc_contiguous_pages p size m) = Some m' ->
      pageOffset (adapter m') = pageOffset (adapter m) /\
      mem_alloc_contiguous_pages p size m' = Done NULL m').
Proof.
  intros Hover.
  assert (mem_alloc_contiguous_pages p size m = Done NULL m) as Hfail.
  { rewrite mem_alloc_contiguous_pages_branches. cbv zeta.
    destruct (Z.leb_spec (size_t p (pageOffset (adapter m) + size))
                         (pageAllocationSize (adapter m))); [lia | reflexivity]. }
  split; [exact Hfail |].
  intros m' Hm'. rewrite Hfail in Hm'. simpl in Hm'. inversion Hm'; subst m'.
  split; [reflexivity | exact Hfail].
Qed.

(** A request of one byte more than the three-page extent fails. *)
Lemma alloc_failure_is_atomic_witness :
  mem_alloc_contiguous_pages x64 12289 (machine3 true []) = Done NULL (machine3 true []) /\
  (forall m' : machine,
      final (mem_alloc_contiguous_pages x64 12289 (machine3 true [])) = Some m' ->
      pageOffset (adapter m') = pageOffset (adapter (machine3 true [])) /\
      mem_alloc_contiguous_pages x64 12289 m' = Done NULL m').
Proof.
  apply (alloc_failure_is_atomic x64 12289 (machine3 true [])).
  vm_compute. reflexivity.
Defined.

(** A request that exceeds the extent over the integers is refused, with
    the machine left as it was, as long as [pageOffset + size] does not wrap
    around in [size_t]. *)
Lemma alloc_refuses_without_wrap (p : platform) (size : Z) (m : machine) :
  0 <= pageOffset (adapter m) ->
  0 <= size ->
  pageOffset (adapter m) + size < 2 ^ ptr_bits p ->
  pageAllocationSize (adapter m) < pageOffset (adapter m) + size ->
  mem_alloc_contiguous_pages p size m = Done NULL m.
Proof.
  intros Hoff Hsize Hnowrap Hover.
  apply alloc_failure_is_atomic. unfold size_t.
  rewrite ULONG_PTR_small by (unfold is_ULONG_PTR, is_unsigned; lia).
  exact Hover.
Qed.

(** C3.  The code at the failing input, the one of C1: on the used-up
    three-page extent ([pageOffset = pageAllocationSize = 12288], cursor
    invariant intact) a request of [2^64 - 12288] bytes on x64 (of
    [2^32 - 12288] on Win32) would push the cursor past the extent, yet
    [pageOffset + size] wraps around to 0 in [size_t] and the test passes:
    the call returns the non-null address [0x203000] and changes
    [pageOffset] from 12288 to 0.  So it is not the case that every request
    that would push the cursor past the extent returns [NULL] and leaves
    [pageOffset] unchanged. *)
Theorem alloc_wrapping_request_is_not_refused :
  (cursor_invariant x64 (adapter (after_alloc 12288 (machine3 true []))) /\
   is_ULONG_PTR x64 (2 ^ 64 - 12288) /\
   pageOffset (adapter (after_alloc 12288 (machine3 true []))) = 12288 /\
   pageAllocationSize (adapter (after_alloc 12288 (machine3 true [])))
     < pageOffset (adapter (after_alloc 12288 (machine3 true []))) + (2 ^ 64 - 12288) /\
   returned (mem_alloc_contiguous_pages x64 (2 ^ 64 - 12288)
               (after_alloc 12288 (machine3 true []))) = Some 0x203000 /\
   ((fun m' => pageOffset (adapter m')) <$>
      final (mem_alloc_contiguous_pages x64 (2 ^ 64 - 12288)
               (after_alloc 12288 (machine3 true [])))) = Some 0) /\
  (cursor_invariant Win32 (adapter (after_alloc 12288 (machine3 true []))) /\
   is_ULONG_PTR Win32 (2 ^ 32 - 12288) /\
   pageAllocationSize (adapter (after_alloc 12288 (machine3 true [])))
     < pageOffset (adapter (after_alloc 12288 (machine3 true []))) + (2 ^ 32 - 12288) /\
   returned (mem_alloc_contiguous_pages Win32 (2 ^ 32 - 12288)
               (after_alloc 12288 (machine3 true []))) = Some 0x203000 /\
   ((fun m' => pageOffset (adapter m')) <$>
      final (mem_alloc_contiguous_pages Win32 (2 ^ 32 - 12288)
               (after_alloc 12288 (machine3 true [])))) = Some 0) /\
  0x203000 <> NULL /\
  ~ (forall (p : platform) (size : Z) (m : machine),
        cursor_invariant p (adapter m) ->
        is_ULONG_PTR p size ->
        pageAllocationSize (adapter m) < pageOffset (adapter m) + size ->
        exists m' : machine,
          mem_alloc_contiguous_pages p size m = Done NULL m' /\
          pageOffset (adapter m') = pageOffset (adapter m)).
Proof.
  assert (forall p : platform,
             cursor_invariant p (adapter (after_alloc 12288 (machine3 true []))))
    as Hinv.
  { intros p. unfold cursor_invariant, extent_wf, is_unsigned, page_aligned.
    destruct p; repeat split; vm_compute;
      solve [reflexivity | discriminate | intros H; discriminate H]. }
  assert (is_ULONG_PTR x64 (2 ^ 64 - 12288)) as Hsize64
      by (unfold is_ULONG_PTR, is_unsigned; simpl ptr_bits; lia).
  assert (is_ULONG_PTR Win32 (2 ^ 32 - 12288)) as Hsize32
      by (unfold is_ULONG_PTR, is_unsigned; simpl ptr_bits; lia).
  split; [| split; [| split]].
  - split; [apply Hinv |]. split; [exact Hsize64 |].
    repeat split; reflexivity.
  - split; [apply Hinv |]. split; [exact Hsize32 |].
    repeat split; reflexivity.
  - discriminate.
  - intros Hclaim.
    destruct (Hclaim x64 (2 ^ 64 - 12288) (after_alloc 12288 (machine3 true []))
                (Hinv x64) Hsize64) as (m' & Hcall & _); [reflexivity |].
    assert (returned (mem_alloc_contiguous_pages x64 (2 ^ 64 - 12288)
                        (after_alloc 12288 (machine3 true []))) = Some 0x203000)
      as Hreturned by reflexivity.
    rewrite Hcall in Hreturned. simpl in Hreturned. discriminate Hreturned.
Qed.

(** ** The BAR table *)

Lemma array_at_negative {A : Type} (l : list A) (i : Z) :
  i < 0 -> array_at l i = None.
Proof.
  intros Hi. unfold array_at.
  now rewrite (proj2 (Z.ltb_lt i 0) Hi).
Qed.

Lemma array_at_inside {A : Type} (l : list A) (i : Z) :
  0 <= i -> array_at l i = l !! Z.to_nat i.
Proof.
  intros Hi. unfold array_at.
  now rewrite (proj2 (Z.ltb_ge i 0) Hi).
Qed.

Lemma valid_bar_entry (a : ADAPTER_EXTENSION) (bar : Z) :
  bars_wf a -> valid_bar bar ->
  exists b : VIRTIO_BAR, pci_bars a !! Z.to_nat bar = Some b.
Proof.
  unfold bars_wf, valid_bar. intros Hlen Hbar.
  apply lookup_lt_is_Some_2. lia.
Qed.

(** An index at or above the size of the table is refused. *)
Lemma bar_index_above_table (p : platform) (bar offset maxlen : Z) (m : machine) :
  PCI_TYPE0_ADDRESSES <= bar ->
  pci_get_resource_len bar m = Done 0 m /\
  pci_map_address_range p bar offset maxlen m = Done NULL m.
Proof.
  intros Hbar.
  unfold pci_get_resource_len, pci_map_address_range, mbind, drv_bind, get_adapter.
  rewrite (proj2 (Z.ltb_ge bar PCI_TYPE0_ADDRESSES) Hbar).
  split; reflexivity.
Qed.

(** C4.  The code at the failing inputs: a negative BAR index passes the
    test [bar < PCI_TYPE0_ADDRESSES], so both functions index the BAR table
    with it and access memory outside the table, instead of returning 0 and
    [NULL]. *)
Theorem negative_bar_index_leaves_table
    (p : platform) (bar offset maxlen : Z) (m : machine) :
  bar < 0 ->
  pci_get_resource_len bar m = AccessOutsideObject /\
  pci_map_address_range p bar offset maxlen m = AccessOutsideObject.
Proof.
  intros Hneg.
  assert ((bar <? PCI_TYPE0_ADDRESSES) = true) as Htest
      by (apply Z.ltb_lt; unfold PCI_TYPE0_ADDRESSES; lia).
  unfold pci_get_resource_len, pci_map_address_range, mbind, drv_bind,
    get_adapter, index.
  rewrite Htest, (array_at_negative _ bar Hneg).
  split; reflexivity.
Qed.

Lemma negative_bar_index_leaves_table_witness :
  pci_get_resource_len (-1) (machine3 true []) = AccessOutsideObject /\
  pci_map_address_range x64 (-1) 0 0x100 (machine3 true []) = AccessOutsideObject.
Proof.
  apply (negative_bar_index_leaves_table x64 (-1) 0 0x100 (machine3 true [])).
  lia.
Defined.

(** The call on a valid index, by the state of the entry. *)
Lemma pci_map_address_range_entry
    (p : platform) (bar offset maxlen : Z) (m : machine) (b : VIRTIO_BAR) :
  valid_bar bar ->
  pci_bars (adapter m) !! Z.to_nat bar = Some b ->
  pci_map_address_range p bar offset maxlen m =
  if pBase b =? NULL then
    let base := ULONG_PTR p (hd NULL (host_replies m)) in
    Done (if negb (base =? NULL) && (offset <? uLength b)
          then ULONG_PTR p (base + offset) else NULL)
         (after_map p bar b m)
  else
    Done (if offset <? uLength b then ULONG_PTR p (pBase b + offset) else NULL) m.
Proof.
  intros [Hlo Hhi] Hb.
  unfold pci_map_address_range, mbind, drv_bind, get_adapter, index.
  rewrite (proj2 (Z.ltb_lt bar PCI_TYPE0_ADDRESSES) Hhi).
  rewrite (array_at_inside _ bar Hlo), Hb. simpl.
  destruct (pBase b =? NULL) eqn:Hnull; simpl.
  - unfold StorPortGetDeviceBase, put_adapter, after_map. simpl.
    destruct (negb (ULONG_PTR p (hd NULL (host_replies m)) =? NULL)
              && (offset <? uLength b)); reflexivity.
  - rewrite Hnull. simpl. destruct (offset <? uLength b); reflexivity.
Qed.

Lemma after_map_requests (p : platform) (bar : Z) (b : VIRTIO_BAR) (m : machine) :
  mapping_requests (after_map p bar b m) = S (mapping_requests m).
Proof.
  unfold mapping_requests, after_map. simpl.
  rewrite filter_app, length_app. simpl. lia.
Qed.

Lemma after_map_entry (p : platform) (bar : Z) (b : VIRTIO_BAR) (m : machine) :
  pci_bars (adapter m) !! Z.to_nat bar = Some b ->
  pci_bars (adapter (after_map p bar b m)) !! Z.to_nat bar =
  Some (set_pBase (ULONG_PTR p (hd NULL (host_replies m))) b).
Proof.
  intros Hb. unfold after_map. simpl.
  apply list_lookup_insert_eq. exact (lookup_lt_Some _ _ _ Hb).
Qed.




(** The scenario of the specification: BAR 0 of length 0x1000, unmapped; the
    host maps it at 0xFFFFF78000000000.  Two identical calls return
    [mappedBase + 0x500] and the host is asked once. *)
Example map_bar0_twice :
  let twice :=
    (first ← pci_map_address_range x64 0 0x500 0x100;
     second ← pci_map_address_range x64 0 0x500 0x100;
     mret (first, second)) (machine3 true [0xFFFFF78000000000]) in
  returned twice = Some (0xFFFFF78000000000 + 0x500, 0xFFFFF78000000000 + 0x500) /\
  (mapping_requests <$> final twice) = Some 1%nat.
Proof. split; reflexivity. Qed.


(** The failing run in full: [NULL] first, then the mapped address, and two
    mapping requests. *)
Example map_bar0_after_failed_mapping :
  let twice :=
    (first ← pci_map_address_range x64 0 0x500 0x100;
     second ← pci_map_address_range x64 0 0x500 0x100;
     mret (first, second)) (machine3 true [NULL; 0xFFFFF78000000000]) in
  returned twice = Some (NULL, 0xFFFFF78000000000 + 0x500) /\
  (mapping_requests <$> final twice) = Some 2%nat.
Proof. split; reflexivity. Qed.

(** The other callbacks leave the BAR table alone: the allocator changes
    the cursor and memory only, the register accessors talk to the host
    only, and the remaining callbacks change nothing. *)
Create HintDb drv_ops.
#[local] Hint Unfold mbind drv_bind mret drv_ret get_adapter put_adapter fault index
  load_le StorPortRead StorPortWrite RtlZeroMemory : drv_ops.

Ltac run_drv :=
  repeat (autounfold with drv_ops in *; simpl in * );
  repeat match goal with
    | H : context [if ?b then _ else _] |- _ => destruct b; simpl in H
    | H : context [match array_at ?l ?i with _ => _ end] |- _ =>
        destruct (array_at l i); simpl in H
    | H : Done _ _ = Done _ _ |- _ => inversion H; subst; clear H
    | H : AccessOutsideObject = Done _ _ |- _ => discriminate H
    end.

Lemma allocator_keeps_bar_table (p : platform) (size r : Z) (m m' : machine) :
  mem_alloc_contiguous_pages p size m = Done r m' ->
  pci_bars (adapter m') = pci_bars (adapter m).
Proof. unfold mem_alloc_contiguous_pages. intros H. run_drv; reflexivity. Qed.

Lemma register_access_keeps_adapter (p : platform) (a v : Z) (m : machine) :
  (forall r m', ReadVirtIODeviceByte p a m = Done r m' -> adapter m' = adapter m) /\
  (forall r m', ReadVirtIODeviceWord p a m = Done r m' -> adapter m' = adapter m) /\
  (forall r m', ReadVirtIODeviceRegister p a m = Done r m' -> adapter m' = adapter m) /\
  (forall r m', WriteVirtIODeviceByte p a v m = Done r m' -> adapter m' = adapter m) /\
  (forall r m', WriteVirtIODeviceWord p a v m = Done r m' -> adapter m' = adapter m) /\
  (forall r m', WriteVirtIODeviceRegister p a v m = Done r m' -> adapter m' = adapter m).
Proof.
  unfold ReadVirtIODeviceByte, ReadVirtIODeviceWord, ReadVirtIODeviceRegister,
    WriteVirtIODeviceByte, WriteVirtIODeviceWord, WriteVirtIODeviceRegister,
    StorPortReadRegisterUchar, StorPortReadPortUchar, StorPortReadRegisterUshort,
    StorPortReadPortUshort, StorPortReadRegisterUlong, StorPortReadPortUlong,
    StorPortWriteRegisterUchar, StorPortWritePortUchar, StorPortWriteRegisterUshort,
    StorPortWritePortUshort, StorPortWriteRegisterUlong, StorPortWritePortUlong.
  repeat split; intros r m' H; run_drv; reflexivity.
Qed.

Lemma readers_keep_machine (nv x : Z) (m : machine) :
  (forall r m', pci_read_config_byte x m = Done r m' -> m' = m) /\
  (forall r m', pci_read_config_word x m = Done r m' -> m' = m) /\
  (forall r m', pci_read_config_dword x m = Done r m' -> m' = m) /\
  (forall r m', pci_get_resource_len x m = Done r m' -> m' = m) /\
  (forall r m', vdev_get_msix_vector nv x m = Done r m' -> m' = m) /\
  mem_free_contiguous_pages x m = Done tt m /\
  pci_unmap_address_range x m = Done tt m.
Proof.
  unfold pci_read_config_byte, pci_read_config_word, pci_read_config_dword,
    pci_get_resource_len, vdev_get_msix_vector, mem_free_contiguous_pages,
    pci_unmap_address_range.
  repeat split; try reflexivity; intros r m' H; run_drv; reflexivity.
Qed.

(** C9.  The [maxlen] argument has no effect: for every machine, BAR index
    and offset, two calls that differ in [maxlen] only have the same outcome,
    pointer and machine alike.  In particular a pointer is returned when
    fewer than [maxlen] bytes remain before the end of the BAR: at offset
    0xFFF of a BAR of length 0x1000 with [maxlen] 0x100. *)
Theorem pci_map_address_range_ignores_maxlen :
  (forall (p : platform) (bar offset maxlen1 maxlen2 : Z) (m : machine),
      pci_map_address_range p bar offset maxlen1 m =
      pci_map_address_range p bar offset maxlen2 m) /\
  uLength bar0_unmapped - 0xFFF < 0x100 /\
  returned (pci_map_address_range x64 0 0xFFF 0x100 (machine3 true [0xFFFFF78000000000]))
    = Some (0xFFFFF78000000000 + 0xFFF).
Proof.
  split; [intros; reflexivity |].
  split; [simpl; lia | reflexivity].
Qed.

(** ** The PCI configuration snapshot *)

Lemma index_inside {A : Type} (l : list A) (i : Z) (x : A) (m : machine) :
  0 <= i -> l !! Z.to_nat i = Some x -> index l i m = Done x m.
Proof.
  intros Hi Hx. unfold index. rewrite array_at_inside, Hx by assumption. reflexivity.
Qed.

Lemma index_past_end {A : Type} (l : list A) (i : Z) (m : machine) :
  Z.of_nat (length l) <= i -> index l i m = AccessOutsideObject.
Proof.
  intros Hi. unfold index.
  rewrite array_at_inside by lia.
  rewrite (lookup_ge_None_2 l (Z.to_nat i)) by lia. reflexivity.
Qed.

Lemma lor_byte_shift (b x : Z) :
  is_unsigned 8 b -> Z.lor b (Z.shiftl x 8) = b + 2 ^ 8 * x.
Proof.
  unfold is_unsigned. intros Hb.
  assert (Z.land b (Z.shiftl x 8) = 0) as Hdisjoint.
  { apply Z.bits_inj'. intros n Hn. rewrite Z.land_spec, Z.bits_0.
    destruct (Z.lt_ge_cases n 8) as [Hlt | Hge].
    - rewrite Z.shiftl_spec_low by assumption. apply andb_false_r.
    - assert (Z.testbit b n = false) as ->; [| reflexivity].
      rewrite <- (Z.mod_small b (2 ^ 8)) by assumption.
      apply Z.mod_pow2_bits_high. lia. }
  rewrite <- Z.lxor_lor, <- Z.add_nocarry_lxor by assumption.
  rewrite Z.shiftl_mul_pow2 by lia. lia.
Qed.

(** On bytes, the little-endian value of the machine is the little-endian
    composition over the integers. *)
Lemma little_endian_to_Z_compose (bs : list Z) :
  Forall (is_unsigned 8) bs -> little_endian_to_Z 8 bs = le_compose bs.
Proof.
  induction 1 as [| b bs Hb _ IH]; simpl; [reflexivity |].
  rewrite lor_byte_shift, IH by assumption. reflexivity.
Qed.

Lemma config_byte_at (a : ADAPTER_EXTENSION) (i : Z) :
  config_wf a -> 0 <= i -> i + 1 <= Z.of_nat (length (pci_config_buf a)) ->
  exists b : Z, pci_config_buf a !! Z.to_nat i = Some b /\ is_unsigned 8 b.
Proof.
  intros Hwf Hi Hlen.
  destruct (lookup_lt_is_Some_2 (pci_config_buf a) (Z.to_nat i)) as [b Hb]; [lia |].
  exists b. split; [exact Hb |].
  exact (proj1 (Forall_lookup _ _) Hwf _ _ Hb).
Qed.

Lemma pci_read_config_word_bytes (m : machine) (off b0 b1 : Z) :
  0 <= off ->
  pci_config_buf (adapter m) !! Z.to_nat off = Some b0 ->
  pci_config_buf (adapter m) !! Z.to_nat (off + 1) = Some b1 ->
  pci_read_config_word off m = Done (0, little_endian_to_Z 8 [b0; b1]) m.
Proof.
  intros Hoff H0 H1.
  unfold pci_read_config_word, load_le, load_bytes, mbind, drv_bind, get_adapter.
  rewrite (index_inside _ off b0) by assumption.
  rewrite (index_inside _ (off + 1) b1) by (try assumption; lia).
  reflexivity.
Qed.

Lemma pci_read_config_dword_bytes (m : machine) (off b0 b1 b2 b3 : Z) :
  0 <= off ->
  pci_config_buf (adapter m) !! Z.to_nat off = Some b0 ->
  pci_config_buf (adapter m) !! Z.to_nat (off + 1) = Some b1 ->
  pci_config_buf (adapter m) !! Z.to_nat (off + 1 + 1) = Some b2 ->
  pci_config_buf (adapter m) !! Z.to_nat (off + 1 + 1 + 1) = Some b3 ->
  pci_read_config_dword off m = Done (0, little_endian_to_Z 8 [b0; b1; b2; b3]) m.
Proof.
  intros Hoff H0 H1 H2 H3.
  unfold pci_read_config_dword, load_le, load_bytes, mbind, drv_bind, get_adapter.
  rewrite (index_inside _ off b0) by assumption.
  rewrite (index_inside _ (off + 1) b1) by (try assumption; lia).
  rewrite (index_inside _ (off + 1 + 1) b2) by (try assumption; lia).
  rewrite (index_inside _ (off + 1 + 1 + 1) b3) by (try assumption; lia).
  reflexivity.
Qed.

(** C8, as amended.  For every offset at which the whole value lies inside
    the snapshot ([off + 2] and [off + 4] at most its size, for a word and
    a double word), the reader returns 0 and stores the little-endian
    composition of the snapshot bytes at that offset; the machine is left as
    it is, so the host, and with it live configuration space, is not
    touched.  In particular bytes 0x34 and 0x12 at 0x2E and 0x2F read as the
    word 0x1234. *)
Theorem pci_read_config_little_endian (m : machine) (off : Z) :
  config_wf (adapter m) ->
  0 <= off ->
  (off + 1 <= Z.of_nat (length (pci_config_buf (adapter m))) ->
   exists b0 : Z,
     pci_config_buf (adapter m) !! Z.to_nat off = Some b0 /\
     pci_read_config_byte off m = Done (0, b0) m) /\
  (off + 2 <= Z.of_nat (length (pci_config_buf (adapter m))) ->
   exists b0 b1 : Z,
     pci_config_buf (adapter m) !! Z.to_nat off = Some b0 /\
     pci_config_buf (adapter m) !! Z.to_nat (off + 1) = Some b1 /\
     pci_read_config_word off m = Done (0, b0 + 2 ^ 8 * b1) m) /\
  (off + 4 <= Z.of_nat (length (pci_config_buf (adapter m))) ->
   exists b0 b1 b2 b3 : Z,
     pci_config_buf (adapter m) !! Z.to_nat off = Some b0 /\
     pci_config_buf (adapter m) !! Z.to_nat (off + 1) = Some b1 /\
     pci_config_buf (adapter m) !! Z.to_nat (off + 2) = Some b2 /\
     pci_config_buf (adapter m) !! Z.to_nat (off + 3) = Some b3 /\
     pci_read_config_dword off m =
       Done (0, b0 + 2 ^ 8 * b1 + 2 ^ 16 * b2 + 2 ^ 24 * b3) m) /\
  (pci_config_buf (adapter m) !! Z.to_nat 0x2E = Some 0x34 ->
   pci_config_buf (adapter m) !! Z.to_nat 0x2F = Some 0x12 ->
   pci_read_config_word 0x2E m = Done (0, 0x1234) m).
Proof.
  intros Hwf Hoff. repeat split.
  - intros Hlen.
    destruct (config_byte_at _ off Hwf Hoff) as (b0 & H0 & _); [lia |].
    exists b0. split; [exact H0 |].
    unfold pci_read_config_byte, mbind, drv_bind, get_adapter.
    rewrite (index_inside _ off b0) by assumption. reflexivity.
  - intros Hlen.
    destruct (config_byte_at _ off Hwf) as (b0 & H0 & R0); [lia | lia |].
    destruct (config_byte_at _ (off + 1) Hwf) as (b1 & H1 & R1); [lia | lia |].
    exists b0, b1. split; [exact H0 |]. split; [exact H1 |].
    rewrite (pci_read_config_word_bytes m off b0 b1) by assumption.
    rewrite little_endian_to_Z_compose by (repeat (apply Forall_cons_2; [assumption |]); apply Forall_nil_2).
    simpl. do 2 f_equal. lia.
  - intros Hlen.
    destruct (config_byte_at _ off Hwf) as (b0 & H0 & R0); [lia | lia |].
    destruct (config_byte_at _ (off + 1) Hwf) as (b1 & H1 & R1); [lia | lia |].
    destruct (config_byte_at _ (off + 2) Hwf) as (b2 & H2 & R2); [lia | lia |].
    destruct (config_byte_at _ (off + 3) Hwf) as (b3 & H3 & R3); [lia | lia |].
    exists b0, b1, b2, b3.
    split; [exact H0 |]. split; [exact H1 |]. split; [exact H2 |]. split; [exact H3 |].
    rewrite (pci_read_config_dword_bytes m off b0 b1 b2 b3); try assumption.
    + rewrite little_endian_to_Z_compose by (repeat (apply Forall_cons_2; [assumption |]); apply Forall_nil_2).
      simpl. do 2 f_equal. lia.
    + now replace (off + 1 + 1) with (off + 2) by lia.
    + now replace (off + 1 + 1 + 1) with (off + 3) by lia.
  - intros H0 H1.
    rewrite (pci_read_config_word_bytes m 0x2E 0x34 0x12); [reflexivity | lia | | ];
      assumption.
Qed.

(** The scenario on the 256-byte snapshot of [machine3]. *)
Lemma pci_read_config_little_endian_witness :
  pci_read_config_word 0x2E (machine3 true []) = Done (0, 0x1234) (machine3 true []).
Proof.
  destruct (pci_read_config_little_endian (machine3 true []) 0x2E) as (_ & Hw & _ & _).
  - unfold config_wf, is_unsigned. simpl.
    repeat (apply Forall_cons_2; [lia |]). apply Forall_nil_2.
  - lia.
  - destruct Hw as (b0 & b1 & H0 & H1 & Hread).
    + vm_compute. discriminate.
    + vm_compute in H0, H1. inversion H0. inversion H1. subst b0 b1. exact Hread.
Defined.

(** C8 as stated fails at the last offsets of the snapshot: offset 255 is
    within the 256 bytes, yet the word read there takes its second byte from
    outside the snapshot (and so does the double word read at 253), so the
    call does not return a composition of snapshot bytes. *)
Lemma pci_read_config_crosses_snapshot_end :
  ~ (forall (m : machine) (off : Z),
        config_wf (adapter m) ->
        0 <= off < Z.of_nat (length (pci_config_buf (adapter m))) ->
        (exists v : Z, pci_read_config_word off m = Done (0, v) m) /\
        (exists v : Z, pci_read_config_dword off m = Done (0, v) m)).
Proof.
  intros Hclaim.
  destruct (Hclaim (machine3 true []) 255) as [[v Hword] _].
  - unfold config_wf, is_unsigned. simpl.
    repeat (apply Forall_cons_2; [lia |]). apply Forall_nil_2.
  - simpl. lia.
  - vm_compute in Hword. discriminate Hword.
Qed.

Example config_reads_at_the_end :
  pci_read_config_byte 255 (machine3 true []) = Done (0, 0) (machine3 true []) /\
  pci_read_config_word 254 (machine3 true []) = Done (0, 0) (machine3 true []) /\
  pci_read_config_word 255 (machine3 true []) = AccessOutsideObject /\
  pci_read_config_dword 252 (machine3 true []) = Done (0, 0) (machine3 true []) /\
  pci_read_config_dword 253 (machine3 true []) = AccessOutsideObject /\
  pci_read_config_byte (-1) (machine3 true []) = AccessOutsideObject.
Proof. repeat split; reflexivity. Qed.

(** ** MSI-X vectors *)

(** Storing an [int] in a [u16] keeps the value modulo [2^16], whether or
    not the [int] addition wrapped. *)
Lemma u16_int (x : Z) : u16 (int x) = x mod 2 ^ 16.
Proof.
  unfold u16, int, to_unsigned, to_signed.
  change (2 ^ (32 - 1)) with 2147483648. change (2 ^ 32) with 4294967296.
  change (2 ^ 16) with 65536.
  rewrite (Z.mod_eq (x + 2147483648) 4294967296) by lia.
  replace (x + 2147483648 - 4294967296 * ((x + 2147483648) / 4294967296) - 2147483648)
    with (x + (- (65536 * ((x + 2147483648) / 4294967296))) * 65536) by lia.
  apply Z_mod_plus_full.
Qed.

Lemma vdev_get_msix_vector_queue (nv queue : Z) (m : machine) :
  0 <= queue ->
  vdev_get_msix_vector nv queue m =
  Done (if msix_enabled (adapter m) then (queue + 1) mod 2 ^ 16 else u16 nv) m.
Proof.
  intros Hq. unfold vdev_get_msix_vector, mbind, drv_bind, get_adapter.
  rewrite (proj2 (Z.geb_le queue 0) Hq), u16_int.
  destruct (msix_enabled (adapter m)); reflexivity.
Qed.

Lemma vdev_get_msix_vector_config (nv queue : Z) (m : machine) :
  queue < 0 -> vdev_get_msix_vector nv queue m = Done (u16 nv) m.
Proof.
  intros Hq. unfold vdev_get_msix_vector, mbind, drv_bind, get_adapter.
  destruct (Z.geb_spec queue 0); [lia | reflexivity].
Qed.

(** C7, as amended.  With [no_vector] the sentinel as a [u16]: for every
    negative queue index the function returns the sentinel, whatever the
    MSI-X state; for every queue index [k >= 0] it returns the sentinel when
    MSI-X is disabled; and for every [k] with [0 <= k < 0xFFFF] it returns
    [k + 1] when MSI-X is enabled. *)
Theorem vdev_get_msix_vector_cases (nv k : Z) (m : machine) :
  (k < 0 -> vdev_get_msix_vector nv k m = Done (u16 nv) m) /\
  (0 <= k -> msix_enabled (adapter m) = false ->
   vdev_get_msix_vector nv k m = Done (u16 nv) m) /\
  (0 <= k < 0xFFFF -> msix_enabled (adapter m) = true ->
   vdev_get_msix_vector nv k m = Done (k + 1) m).
Proof.
  split; [apply vdev_get_msix_vector_config |].
  split.
  - intros Hk Hoff. rewrite vdev_get_msix_vector_queue, Hoff by assumption. reflexivity.
  - intros Hk Hon. rewrite vdev_get_msix_vector_queue, Hon by lia.
    rewrite Z.mod_small by (change (2 ^ 16) with 65536; lia). reflexivity.
Qed.

(** Queue 3 gets vector 4 with MSI-X, the sentinel without; the
    configuration-change channel gets the sentinel. *)
Lemma vdev_get_msix_vector_cases_witness :
  vdev_get_msix_vector 0xFFFF 3 (machine3 true []) = Done 4 (machine3 true []) /\
  vdev_get_msix_vector 0xFFFF 3 (machine3 false []) = Done 0xFFFF (machine3 false []) /\
  vdev_get_msix_vector 0xFFFF (-1) (machine3 true []) = Done 0xFFFF (machine3 true []).
Proof.
  split; [| split].
  - apply (proj2 (proj2 (vdev_get_msix_vector_cases 0xFFFF 3 (machine3 true []))));
      [lia | reflexivity].
  - apply (proj1 (proj2 (vdev_get_msix_vector_cases 0xFFFF 3 (machine3 false []))));
      [lia | reflexivity].
  - apply (proj1 (vdev_get_msix_vector_cases 0xFFFF (-1) (machine3 true []))). lia.
Defined.

(** C7 as stated fails from queue index 0xFFFF on: with MSI-X enabled the
    function returns 0 there, not [k + 1]. *)
Lemma vdev_get_msix_vector_0xFFFF :
  ~ (forall (nv k : Z) (m : machine),
        0 <= k -> is_int k -> msix_enabled (adapter m) = true ->
        vdev_get_msix_vector nv k m = Done (k + 1) m).
Proof.
  intros Hclaim.
  specialize (Hclaim 0xFFFF 0xFFFF (machine3 true [])).
  assert (vdev_get_msix_vector 0xFFFF 0xFFFF (machine3 true [])
          = Done 0 (machine3 true [])) as Hzero by reflexivity.
  rewrite Hzero in Hclaim.
  assert (Done 0 (machine3 true []) = Done (0xFFFF + 1) (machine3 true [])) as Heq.
  { apply Hclaim; [lia | unfold is_int; lia | reflexivity]. }
  inversion Heq.
Qed.

(** C10.  With MSI-X enabled the vector of a queue index [k >= 0] is
    [(k + 1) mod 2^16]: queue 0xFFFF gets 0 and queue 0xFFFE gets 0xFFFF;
    whatever the value of the sentinel, some queue index gets the very
    value that is returned for "no vector", and with the sentinel 0xFFFF
    that queue is 0xFFFE. *)
Theorem msix_vector_is_truncated :
  (forall (nv k : Z) (m : machine),
      0 <= k -> msix_enabled (adapter m) = true ->
      vdev_get_msix_vector nv k m = Done ((k + 1) mod 2 ^ 16) m) /\
  (forall (nv : Z) (m : machine),
      msix_enabled (adapter m) = true ->
      vdev_get_msix_vector nv 0xFFFF m = Done 0 m /\
      vdev_get_msix_vector nv 0xFFFE m = Done 0xFFFF m) /\
  (forall (nv : Z) (m : machine),
      msix_enabled (adapter m) = true ->
      exists k : Z,
        0 <= k <= 0xFFFF /\
        vdev_get_msix_vector nv k m = vdev_get_msix_vector nv (-1) m) /\
  (forall m : machine,
      msix_enabled (adapter m) = true ->
      vdev_get_msix_vector 0xFFFF 0xFFFE m = vdev_get_msix_vector 0xFFFF (-1) m).
Proof.
  assert (forall (nv k : Z) (m : machine),
             0 <= k -> msix_enabled (adapter m) = true ->
             vdev_get_msix_vector nv k m = Done ((k + 1) mod 2 ^ 16) m) as Htrunc.
  { intros nv k m Hk Hon. rewrite vdev_get_msix_vector_queue, Hon by assumption.
    reflexivity. }
  split; [exact Htrunc |].
  split; [| split].
  - intros nv m Hon. split; rewrite Htrunc by (try assumption; lia); reflexivity.
  - intros nv m Hon.
    rewrite (vdev_get_msix_vector_config nv (-1) m) by lia.
    pose proof (Z.mod_pos_bound nv (2 ^ 16) ltac:(lia)) as Hnv.
    change (2 ^ 16) with 65536 in Hnv.
    destruct (decide (u16 nv = 0)) as [Hz | Hnz].
    + exists 0xFFFF. split; [lia |].
      rewrite Htrunc by (try assumption; lia). rewrite Hz. reflexivity.
    + exists (u16 nv - 1). unfold u16, to_unsigned in *.
      change (2 ^ 16) with 65536 in *. split; [lia |].
      rewrite Htrunc by (try assumption; lia).
      change (2 ^ 16) with 65536.
      replace (nv mod 65536 - 1 + 1) with (nv mod 65536) by lia.
      rewrite Z.mod_mod by lia. reflexivity.
  - intros m Hon.
    rewrite Htrunc by (try assumption; lia).
    rewrite (vdev_get_msix_vector_config 0xFFFF (-1) m) by lia. reflexivity.
Qed.

Lemma msix_vector_is_truncated_witness :
  vdev_get_msix_vector 0xFFFF 0x1FFFE (machine3 true []) = Done 0xFFFF (machine3 true []) /\
  vdev_get_msix_vector 0xFFFF 0xFFFF (machine3 true []) = Done 0 (machine3 true []) /\
  vdev_get_msix_vector 0xFFFF 0xFFFE (machine3 true []) =
    vdev_get_msix_vector 0xFFFF (-1) (machine3 true []).
Proof.
  destruct msix_vector_is_truncated as (Htrunc & Hedge & _ & Hclash).
  split; [| split].
  - apply (Htrunc 0xFFFF 0x1FFFE (machine3 true [])); [lia | reflexivity].
  - apply (Hedge 0xFFFF (machine3 true [])). reflexivity.
  - apply (Hclash (machine3 true [])). reflexivity.
Defined.

(** * Further properties of the callbacks *)

(** ** The allocator beyond the claims *)

Lemma page_divides_word (w : Z) : 12 <= w -> (PAGE_SIZE | 2 ^ w).
Proof.
  intros Hw. exists (2 ^ (w - 12)). unfold PAGE_SIZE.
  change 4096 with (2 ^ 12). rewrite <- Z.pow_add_r by lia. f_equal. lia.
Qed.

Lemma page_aligned_mod_pow2 (w x : Z) :
  12 <= w -> page_aligned x -> page_aligned (x mod 2 ^ w).
Proof.
  unfold page_aligned. intros Hw Hx.
  rewrite Z.mod_mod_divide; [exact Hx |].
  now apply page_divides_word.
Qed.

Lemma ptr_bits_ge_12 (p : platform) : 12 <= ptr_bits p.
Proof. destruct p; simpl; lia. Qed.

(** The macro yields a whole number of pages for every argument, wrapped or
    not. *)
Lemma ROUND_TO_PAGES_aligned (p : platform) (size : Z) :
  page_aligned (ROUND_TO_PAGES p size).
Proof.
  unfold ROUND_TO_PAGES.
  set (x := ULONG_PTR p (ULONG_PTR p size + PAGE_SIZE - 1)).
  assert (is_unsigned (ptr_bits p) x) as Hx.
  { unfold x, ULONG_PTR, to_unsigned, is_unsigned.
    apply Z.mod_pos_bound. pose proof (ptr_bits_pos p). lia. }
  unfold ULONG_PTR at 1.
  rewrite land_mask_unsigned by (try assumption; pose proof (ptr_bits_pos p); lia).
  change (PAGE_SIZE - 1) with (Z.ones 12).
  rewrite land_lnot_ones by lia.
  unfold page_aligned, PAGE_SIZE. change (2 ^ 12) with 4096.
  apply Z.mod_mul. lia.
Qed.

(** A request that passes the test succeeds, whether or not its rounded size
    fits, as long as the new cursor is a [ULONG]. *)
Lemma mem_alloc_contiguous_pages_passes (p : platform) (size : Z) (m : machine) :
  extent_wf p (adapter m) ->
  0 <= size ->
  pageOffset (adapter m) + size <= pageAllocationSize (adapter m) ->
  pageOffset (adapter m) + round_up_pages size < 2 ^ 32 ->
  mem_alloc_contiguous_pages p size m =
  Done (pageAllocationVa (adapter m) + pageOffset (adapter m)) (after_alloc size m).
Proof.
  intros (Hva & Hext & Hsz & Hoff) H0 Hfit Hcur.
  unfold is_unsigned in Hsz, Hoff.
  pose proof (round_up_pages_bounds size) as Hr.
  pose proof (round_up_pages_aligned size) as Hal.
  assert (2 ^ 32 <= 2 ^ ptr_bits p) as Hw by (destruct p; simpl; lia).
  assert (size + PAGE_SIZE - 1 < 2 ^ 32) as Hsmall.
  { unfold page_aligned, PAGE_SIZE in *.
    pose proof (Z.div_mod (round_up_pages size) 4096 ltac:(lia)) as Hd.
    rewrite Hal in Hd. change (2 ^ 32) with (4096 * 1048576) in *. lia. }
  rewrite mem_alloc_contiguous_pages_branches. cbv zeta.
  rewrite (ROUND_TO_PAGES_exact p size) by lia.
  unfold size_t.
  rewrite (ULONG_PTR_small p (pageOffset (adapter m) + size))
    by (unfold is_ULONG_PTR, is_unsigned; lia).
  rewrite (ULONG_PTR_small p (pageAllocationVa (adapter m)))
    by (unfold is_ULONG_PTR, is_unsigned; lia).
  rewrite (ULONG_PTR_small p (pageAllocationVa (adapter m) + pageOffset (adapter m)))
    by (unfold is_ULONG_PTR, is_unsigned; lia).
  unfold ULONG, u32.
  rewrite (to_unsigned_small 32 (pageOffset (adapter m) + round_up_pages size))
    by (unfold is_unsigned; lia).
  destruct (Z.leb_spec (pageOffset (adapter m) + size) (pageAllocationSize (adapter m)));
    [reflexivity | lia].
Qed.

Ltac concrete_cursor :=
  unfold cursor_invariant, extent_wf, is_unsigned, page_aligned; simpl;
  unfold PAGE_SIZE; repeat split; try reflexivity; lia.

(** X1.  On an extent of whole pages with an aligned cursor, and for a
    request whose sum with the cursor does not wrap around: the call
    succeeds exactly when [pageOffset + size <= pageAllocationSize]; then it
    returns the address at the old cursor, advances the cursor by the
    page-rounded size and zeroes the block; otherwise it returns [NULL] and
    leaves the machine as it was. *)
Theorem alloc_succeeds_exactly_when_it_fits (p : platform) (size : Z) (m : machine) :
  cursor_invariant p (adapter m) ->
  0 <= size ->
  pageOffset (adapter m) + size < 2 ^ ptr_bits p ->
  (pageOffset (adapter m) + size <= pageAllocationSize (adapter m) ->
   mem_alloc_contiguous_pages p size m =
     Done (pageAllocationVa (adapter m) + pageOffset (adapter m)) (after_alloc size m) /\
   pageOffset (adapter (after_alloc size m)) = pageOffset (adapter m) + round_up_pages size /\
   zero_filled (after_alloc size m)
     (pageAllocationVa (adapter m) + pageOffset (adapter m)) (round_up_pages size)) /\
  (pageAllocationSize (adapter m) < pageOffset (adapter m) + size ->
   mem_alloc_contiguous_pages p size m = Done NULL m).
Proof.
  intros (Hwf & Hsz & Hoff & _) H0 Hnowrap.
  pose proof (mem_alloc_contiguous_pages_no_wrap p size m Hwf Hsz Hoff H0 Hnowrap)
    as Hcall.
  split; intros Hcmp.
  - rewrite decide_True in Hcall by assumption.
    split; [exact Hcall |]. split; [reflexivity | apply after_alloc_zero_filled].
  - rewrite decide_False in Hcall by lia. exact Hcall.
Qed.

Lemma alloc_succeeds_exactly_when_it_fits_witness :
  mem_alloc_contiguous_pages x64 4000 (machine3 true []) =
    Done 0x200000 (after_alloc 4000 (machine3 true [])) /\
  pageOffset (adapter (after_alloc 4000 (machine3 true []))) = 4096 /\
  mem_alloc_contiguous_pages x64 12289 (machine3 true []) = Done NULL (machine3 true []).
Proof.
  destruct (alloc_succeeds_exactly_when_it_fits x64 4000 (machine3 true []))
    as [Hfit _]; [concrete_cursor | lia | simpl; lia |].
  destruct (alloc_succeeds_exactly_when_it_fits x64 12289 (machine3 true []))
    as [_ Hover]; [concrete_cursor | lia | simpl; lia |].
  destruct Hfit as (Hcall & Hcur & _); [simpl; unfold PAGE_SIZE; lia |].
  split; [exact Hcall |]. split; [exact Hcur |].
  apply Hover. simpl. unfold PAGE_SIZE. lia.
Defined.

(** X2.  The cursor invariant is kept: on an extent of whole pages, from an
    aligned cursor within the extent, a call whose sum of cursor and size
    does not wrap around leaves the cursor aligned and within the extent,
    never moves it back, and changes no other field of the adapter. *)
Theorem alloc_keeps_cursor_invariant
    (p : platform) (size r : Z) (m m' : machine) :
  cursor_invariant p (adapter m) ->
  0 <= size ->
  pageOffset (adapter m) + size < 2 ^ ptr_bits p ->
  mem_alloc_contiguous_pages p size m = Done r m' ->
  cursor_invariant p (adapter m') /\
  pageOffset (adapter m) <= pageOffset (adapter m') /\
  same_but_cursor (adapter m) (adapter m').
Proof.
  intros (Hwf & Hsz & Hoff & Hin) H0 Hnowrap Hcall.
  rewrite (mem_alloc_contiguous_pages_no_wrap p size m Hwf Hsz Hoff H0 Hnowrap) in Hcall.
  destruct (decide (pageOffset (adapter m) + size <= pageAllocationSize (adapter m)))
    as [Hfit | Hover]; inversion Hcall; subst r m'; clear Hcall.
  - assert (round_up_pages size
            <= pageAllocationSize (adapter m) - pageOffset (adapter m)) as Hround.
    { apply round_up_pages_fits; [| lia].
      unfold page_aligned, PAGE_SIZE in *. rewrite Zminus_mod, Hsz, Hoff. reflexivity. }
    pose proof (round_up_pages_nonneg size H0) as Hr.
    split; [| split].
    + split; [apply after_alloc_extent_wf; try assumption; lia |].
      simpl. split; [exact Hsz |].
      split; [apply page_aligned_add; [exact Hoff | apply round_up_pages_aligned] | lia].
    + simpl. lia.
    + repeat split.
  - split; [exact (conj Hwf (conj Hsz (conj Hoff Hin))) |].
    split; [lia | repeat split].
Qed.

Lemma alloc_keeps_cursor_invariant_witness :
  cursor_invariant x64 (adapter (after_alloc 4000 (machine3 true []))) /\
  pageOffset (adapter (machine3 true []))
    <= pageOffset (adapter (after_alloc 4000 (machine3 true []))) /\
  same_but_cursor (adapter (machine3 true []))
    (adapter (after_alloc 4000 (machine3 true []))).
Proof.
  apply (alloc_keeps_cursor_invariant x64 4000 0x200000 (machine3 true [])).
  - concrete_cursor.
  - lia.
  - simpl. lia.
  - reflexivity.
Defined.

Lemma page_aligned_0 : page_aligned 0.
Proof. reflexivity. Qed.

(** X3.  Alignment needs no other assumption: whenever the extent base and
    the cursor are page-aligned, the pointer a call returns and the cursor
    it leaves are page-aligned, for every size, also one that makes the
    arithmetic of the call wrap around. *)
Theorem alloc_results_are_page_aligned
    (p : platform) (size r : Z) (m m' : machine) :
  page_aligned (pageAllocationVa (adapter m)) ->
  page_aligned (pageOffset (adapter m)) ->
  mem_alloc_contiguous_pages p size m = Done r m' ->
  page_aligned r /\ page_aligned (pageOffset (adapter m')).
Proof.
  intros Hva Hoff Hcall.
  rewrite mem_alloc_contiguous_pages_branches in Hcall. cbv zeta in Hcall.
  destruct (size_t p (pageOffset (adapter m) + size) <=? pageAllocationSize (adapter m));
    inversion Hcall; subst r m'; clear Hcall.
  - split.
    + unfold ULONG_PTR, to_unsigned.
      apply page_aligned_mod_pow2; [apply ptr_bits_ge_12 |].
      apply page_aligned_add; [| exact Hoff].
      apply page_aligned_mod_pow2; [apply ptr_bits_ge_12 | exact Hva].
    + simpl. unfold ULONG, u32, to_unsigned.
      apply page_aligned_mod_pow2; [lia |].
      apply page_aligned_add; [exact Hoff | apply ROUND_TO_PAGES_aligned].
  - split; [apply page_aligned_0 | exact Hoff].
Qed.

(** The request of [2^64 - 12288] bytes on the used-up three-page extent,
    whose sum with the cursor wraps around, still yields aligned results. *)
Lemma alloc_results_are_page_aligned_witness :
  exists (r : Z) (m' : machine),
    mem_alloc_contiguous_pages x64 (2 ^ 64 - 12288)
      (after_alloc 12288 (machine3 true [])) = Done r m' /\
    r = 0x203000 /\
    page_aligned r /\ page_aligned (pageOffset (adapter m')).
Proof.
  eexists _, _. split; [rewrite mem_alloc_contiguous_pages_branches; reflexivity |].
  split; [reflexivity |].
  eapply (alloc_results_are_page_aligned x64 (2 ^ 64 - 12288) _
            (after_alloc 12288 (machine3 true [])));
    [reflexivity | reflexivity |].
  rewrite mem_alloc_contiguous_pages_branches. reflexivity.
Defined.



(** X5.  The test is made on the size as requested, the cursor moves by the
    rounded size: on a well-formed extent, a request that fits while its
    page-rounded size does not (possible only on an extent that is not a
    whole number of pages from the cursor on), and whose new cursor
    [pageOffset + rounded size] is still below [2^32], so that the [ULONG]
    cursor does not wrap around, succeeds, leaves the cursor beyond
    [pageAllocationSize] and zeroes the bytes between the end of the extent
    and the end of the rounded block. *)
Theorem alloc_rounding_overruns_extent (p : platform) (size : Z) (m : machine) :
  extent_wf p (adapter m) ->
  0 <= size ->
  pageOffset (adapter m) + size <= pageAllocationSize (adapter m) ->
  pageAllocationSize (adapter m) < pageOffset (adapter m) + round_up_pages size ->
  pageOffset (adapter m) + round_up_pages size < 2 ^ 32 ->
  exists m' : machine,
    mem_alloc_contiguous_pages p size m =
      Done (pageAllocationVa (adapter m) + pageOffset (adapter m)) m' /\
    pageAllocationSize (adapter m') < pageOffset (adapter m') /\
    (forall a : Z,
        pageAllocationVa (adapter m) + pageAllocationSize (adapter m) <= a
          < pageAllocationVa (adapter m) + pageOffset (adapter m) + round_up_pages size ->
        ram m' a = 0).
Proof.
  intros Hwf H0 Hfit Hover Hcur.
  exists (after_alloc size m).
  split; [now apply mem_alloc_contiguous_pages_passes |].
  split; [simpl; lia |].
  intros a Ha. apply after_alloc_zero_filled.
  destruct Hwf as (_ & _ & _ & Hoff). unfold is_unsigned in Hoff. lia.
Qed.

(** An extent of 5000 bytes: a request of 5000 bytes moves the cursor to
    8192 and zeroes 3192 bytes past the extent. *)
Lemma alloc_rounding_overruns_extent_witness :
  exists m' : machine,
    mem_alloc_contiguous_pages x64 5000 machine_5000 = Done 0x200000 m' /\
    pageAllocationSize (adapter m') < pageOffset (adapter m') /\
    (forall a : Z,
        0x200000 + 5000 <= a < 0x200000 + 0 + round_up_pages 5000 -> ram m' a = 0).
Proof.
  apply (alloc_rounding_overruns_extent x64 5000 machine_5000).
  - unfold extent_wf, is_unsigned. simpl. lia.
  - lia.
  - simpl. lia.
  - vm_compute. reflexivity.
  - vm_compute. reflexivity.
Defined.

(** X6.  Freeing gives nothing back: when an allocation has used up the
    extent, freeing its block does not let a later request of any size
    greater than 0 (whose sum with the cursor does not wrap around)
    succeed. *)
Theorem free_does_not_reclaim (p : platform) (size1 size2 : Z) (m : machine) :
  extent_wf p (adapter m) ->
  0 <= size1 ->
  pageOffset (adapter m) + round_up_pages size1 = pageAllocationSize (adapter m) ->
  0 < size2 ->
  pageAllocationSize (adapter m) + size2 < 2 ^ ptr_bits p ->
  (ptr ← mem_alloc_contiguous_pages p size1;
   mem_free_contiguous_pages ptr;;
   mem_alloc_contiguous_pages p size2) m
  = Done NULL (after_alloc size1 m).
Proof.
  intros Hwf H1 Hfull H2 Hnowrap.
  unfold mbind, drv_bind.
  rewrite mem_alloc_contiguous_pages_fits by (try assumption; lia).
  unfold mem_free_contiguous_pages, mret, drv_ret.
  apply full_extent_rejects.
  - apply after_alloc_extent_wf; try assumption; lia.
  - simpl. exact Hfull.
  - exact H2.
  - simpl. lia.
Qed.

Lemma free_does_not_reclaim_witness :
  (ptr ← mem_alloc_contiguous_pages x64 12288;
   mem_free_contiguous_pages ptr;;
   mem_alloc_contiguous_pages x64 1) (machine3 true [])
  = Done NULL (after_alloc 12288 (machine3 true [])).
Proof.
  apply (free_does_not_reclaim x64 12288 1 (machine3 true [])).
  - unfold extent_wf, is_unsigned. simpl. unfold PAGE_SIZE. lia.
  - lia.
  - vm_compute. reflexivity.
  - lia.
  - simpl. unfold PAGE_SIZE. lia.
Defined.

(** ** The configuration readers beyond the claims *)

Lemma array_at_None {A : Type} (l : list A) (i : Z) :
  array_at l i = None <-> i < 0 \/ Z.of_nat (length l) <= i.
Proof.
  unfold array_at. destruct (Z.ltb_spec i 0) as [Hneg | Hpos].
  - split; [intros _; now left | reflexivity].
  - rewrite lookup_ge_None. lia.
Qed.

Lemma index_outside {A : Type} (l : list A) (i : Z) (m : machine) :
  i < 0 \/ Z.of_nat (length l) <= i -> index l i m = AccessOutsideObject.
Proof.
  intros Hi. unfold index. now rewrite (proj2 (array_at_None l i) Hi).
Qed.

(** Inside the array the bytes read are the stretch of the array. *)
Lemma load_bytes_inside (buf : list Z) (n : nat) :
  forall (i : Z) (m : machine),
    0 <= i -> i + Z.of_nat n <= Z.of_nat (length buf) ->
    load_bytes buf i n m = Done (take n (drop (Z.to_nat i) buf)) m.
Proof.
  induction n as [| n IH]; intros i m Hi Hlen; [reflexivity |].
  destruct (lookup_lt_is_Some_2 buf (Z.to_nat i)) as [b Hb]; [lia |].
  simpl load_bytes. unfold mbind, drv_bind.
  rewrite (index_inside buf i b m Hi Hb).
  rewrite (IH (i + 1) m) by lia.
  rewrite (drop_S buf b (Z.to_nat i) Hb).
  replace (Z.to_nat (i + 1)) with (S (Z.to_nat i)) by lia.
  reflexivity.
Qed.

(** A read that is not wholly inside the array leaves it. *)
Lemma load_bytes_outside (buf : list Z) (n : nat) :
  forall (i : Z) (m : machine),
    (0 < n)%nat ->
    i < 0 \/ Z.of_nat (length buf) < i + Z.of_nat n ->
    load_bytes buf i n m = AccessOutsideObject.
Proof.
  induction n as [| n IH]; intros i m Hn Hout; [lia |].
  simpl load_bytes. unfold mbind, drv_bind.
  destruct (decide (i < 0 \/ Z.of_nat (length buf) <= i)) as [Hi | Hi].
  - now rewrite index_outside.
  - destruct (lookup_lt_is_Some_2 buf (Z.to_nat i)) as [b Hb]; [lia |].
    rewrite (index_inside buf i b m) by (try assumption; lia).
    rewrite (IH (i + 1) m) by lia. reflexivity.
Qed.

Lemma load_le_returns (buf : list Z) (i : Z) (n : nat) (m : machine) :
  (0 < n)%nat ->
  returns (load_le buf i n m) <-> 0 <= i /\ i + Z.of_nat n <= Z.of_nat (length buf).
Proof.
  intros Hn. unfold load_le, mbind, drv_bind.
  destruct (decide (0 <= i /\ i + Z.of_nat n <= Z.of_nat (length buf))) as [Hin | Hout].
  - rewrite load_bytes_inside by lia. simpl. tauto.
  - rewrite load_bytes_outside by lia. simpl. tauto.
Qed.

(** X7.  The readers check no bounds, so each returns exactly when the
    whole value lies inside the snapshot: one, two or four bytes from a
    non-negative offset on; at every other offset, negative ones included,
    the read leaves the snapshot. *)
Theorem config_read_returns_iff_inside (m : machine) (off : Z) :
  (returns (pci_read_config_byte off m) <->
   0 <= off /\ off + 1 <= Z.of_nat (length (pci_config_buf (adapter m)))) /\
  (returns (pci_read_config_word off m) <->
   0 <= off /\ off + 2 <= Z.of_nat (length (pci_config_buf (adapter m)))) /\
  (returns (pci_read_config_dword off m) <->
   0 <= off /\ off + 4 <= Z.of_nat (length (pci_config_buf (adapter m)))).
Proof.
  split; [| split].
  - unfold pci_read_config_byte, mbind, drv_bind, get_adapter, index.
    destruct (array_at (pci_config_buf (adapter m)) off) as [b |] eqn:Hat; simpl.
    + assert (~ (off < 0 \/ Z.of_nat (length (pci_config_buf (adapter m))) <= off)).
      { rewrite <- array_at_None, Hat. discriminate. }
      split; [lia | trivial].
    + apply array_at_None in Hat. split; [contradiction | lia].
  - rewrite <- (load_le_returns _ off 2 m) by lia.
    unfold pci_read_config_word, mbind, drv_bind, get_adapter.
    destruct (load_le (pci_config_buf (adapter m)) off 2 m); simpl; tauto.
  - rewrite <- (load_le_returns _ off 4 m) by lia.
    unfold pci_read_config_dword, mbind, drv_bind, get_adapter.
    destruct (load_le (pci_config_buf (adapter m)) off 4 m); simpl; tauto.
Qed.

(** X8.  The three readers agree with one another: at an offset where four
    bytes lie inside the snapshot, the word read is the two byte reads
    composed and the double word read is the two word reads composed, low
    part first. *)
Theorem config_dword_is_two_words (m : machine) (off : Z) :
  config_wf (adapter m) ->
  0 <= off ->
  off + 4 <= Z.of_nat (length (pci_config_buf (adapter m))) ->
  exists b0 b1 b2 b3 : Z,
    pci_read_config_byte off m = Done (0, b0) m /\
    pci_read_config_byte (off + 1) m = Done (0, b1) m /\
    pci_read_config_byte (off + 2) m = Done (0, b2) m /\
    pci_read_config_byte (off + 3) m = Done (0, b3) m /\
    pci_read_config_word off m = Done (0, b0 + 2 ^ 8 * b1) m /\
    pci_read_config_word (off + 2) m = Done (0, b2 + 2 ^ 8 * b3) m /\
    pci_read_config_dword off m =
      Done (0, (b0 + 2 ^ 8 * b1) + 2 ^ 16 * (b2 + 2 ^ 8 * b3)) m.
Proof.
  intros Hwf Hoff Hlen.
  destruct (config_byte_at _ off Hwf) as (b0 & H0 & R0); [lia | lia |].
  destruct (config_byte_at _ (off + 1) Hwf) as (b1 & H1 & R1); [lia | lia |].
  destruct (config_byte_at _ (off + 2) Hwf) as (b2 & H2 & R2); [lia | lia |].
  destruct (config_byte_at _ (off + 3) Hwf) as (b3 & H3 & R3); [lia | lia |].
  assert (forall i b, 0 <= i -> pci_config_buf (adapter m) !! Z.to_nat i = Some b ->
                      pci_read_config_byte i m = Done (0, b) m) as Hbyte.
  { intros i b Hi Hb. unfold pci_read_config_byte, mbind, drv_bind, get_adapter.
    rewrite (index_inside _ i b) by assumption. reflexivity. }
  exists b0, b1, b2, b3.
  split; [apply Hbyte; [lia | exact H0] |].
  split; [apply Hbyte; [lia | exact H1] |].
  split; [apply Hbyte; [lia | exact H2] |].
  split; [apply Hbyte; [lia | exact H3] |].
  split; [| split].
  - rewrite (pci_read_config_word_bytes m off b0 b1) by assumption.
    rewrite little_endian_to_Z_compose
      by (repeat (apply Forall_cons_2; [assumption |]); apply Forall_nil_2).
    simpl. do 2 f_equal. lia.
  - rewrite (pci_read_config_word_bytes m (off + 2) b2 b3);
      [| lia | exact H2 | now replace (off + 2 + 1) with (off + 3) by lia].
    rewrite little_endian_to_Z_compose
      by (repeat (apply Forall_cons_2; [assumption |]); apply Forall_nil_2).
    simpl. do 2 f_equal. lia.
  - rewrite (pci_read_config_dword_bytes m off b0 b1 b2 b3);
      [| lia | exact H0 | exact H1
       | now replace (off + 1 + 1) with (off + 2) by lia
       | now replace (off + 1 + 1 + 1) with (off + 3) by lia].
    rewrite little_endian_to_Z_compose
      by (repeat (apply Forall_cons_2; [assumption |]); apply Forall_nil_2).
    simpl. do 2 f_equal. lia.
Qed.

Ltac concrete_config :=
  unfold config_wf, is_unsigned; simpl;
  repeat (apply Forall_cons_2; [lia |]); apply Forall_nil_2.

(** The double word at 0x2C of the scenario snapshot: the words 0 and
    0x1234. *)
Lemma config_dword_is_two_words_witness :
  exists b0 b1 b2 b3 : Z,
    pci_read_config_byte 0x2C (machine3 true []) = Done (0, b0) (machine3 true []) /\
    pci_read_config_byte (0x2C + 1) (machine3 true []) = Done (0, b1) (machine3 true []) /\
    pci_read_config_byte (0x2C + 2) (machine3 true []) = Done (0, b2) (machine3 true []) /\
    pci_read_config_byte (0x2C + 3) (machine3 true []) = Done (0, b3) (machine3 true []) /\
    pci_read_config_word 0x2C (machine3 true []) =
      Done (0, b0 + 2 ^ 8 * b1) (machine3 true []) /\
    pci_read_config_word (0x2C + 2) (machine3 true []) =
      Done (0, b2 + 2 ^ 8 * b3) (machine3 true []) /\
    pci_read_config_dword 0x2C (machine3 true []) =
      Done (0, (b0 + 2 ^ 8 * b1) + 2 ^ 16 * (b2 + 2 ^ 8 * b3)) (machine3 true []).
Proof.
  apply (config_dword_is_two_words (machine3 true []) 0x2C).
  - concrete_config.
  - lia.
  - simpl. lia.
Defined.

(** X9.  What a reader stores fits the type it is stored through: whenever
    a reader returns, the status is 0, the machine is as it was, and a byte
    read is below [2^8], a word read below [2^16] and a double word read
    below [2^32], so nothing is lost in [*bVal], [*wVal] and [*dwVal]. *)
Theorem config_values_fit_their_types
    (m m' : machine) (off status v : Z) :
  config_wf (adapter m) ->
  (pci_read_config_byte off m = Done (status, v) m' ->
   status = 0 /\ 0 <= v < 2 ^ 8 /\ m' = m) /\
  (pci_read_config_word off m = Done (status, v) m' ->
   status = 0 /\ 0 <= v < 2 ^ 16 /\ m' = m) /\
  (pci_read_config_dword off m = Done (status, v) m' ->
   status = 0 /\ 0 <= v < 2 ^ 32 /\ m' = m).
Proof.
  intros Hwf.
  assert (forall k : nat,
             (0 < k)%nat ->
             load_le (pci_config_buf (adapter m)) off k m = Done v m' ->
             0 <= v < 2 ^ (Z.of_nat k * 8) /\ m' = m) as Hle.
  { intros k Hk Hload. unfold load_le, mbind, drv_bind in Hload.
    destruct (decide (0 <= off /\
                      off + Z.of_nat k <= Z.of_nat (length (pci_config_buf (adapter m)))))
      as [Hin | Hout].
    - rewrite load_bytes_inside in Hload by lia.
      inversion Hload; subst v m'. split; [| reflexivity].
      set (bs := take k (drop (Z.to_nat off) (pci_config_buf (adapter m)))).
      assert (length bs = k) as Hbs.
      { unfold bs. rewrite length_take, length_drop. lia. }
      pose proof (little_endian_to_Z_bound 8 bs ltac:(lia)) as Hb.
      rewrite Hbs in Hb.
      apply Hb. unfold bs. apply Forall_take, Forall_drop. exact Hwf.
    - rewrite load_bytes_outside in Hload by lia. discriminate Hload. }
  split; [| split].
  - intros Hb.
    unfold pci_read_config_byte, mbind, drv_bind, get_adapter, index in Hb.
    destruct (array_at (pci_config_buf (adapter m)) off) as [b |] eqn:Hat;
      simpl in Hb; [| discriminate Hb].
    inversion Hb; subst status v m'.
    split; [reflexivity |]. split; [| reflexivity].
    unfold array_at in Hat. destruct (off <? 0); [discriminate Hat |].
    exact (proj1 (Forall_lookup _ _) Hwf _ _ Hat).
  - intros Hw.
    unfold pci_read_config_word, mbind, drv_bind, get_adapter in Hw.
    destruct (load_le (pci_config_buf (adapter m)) off 2 m) as [w mw |] eqn:Hload;
      simpl in Hw; [| discriminate Hw].
    inversion Hw; subst status w mw. split; [reflexivity |].
    apply (Hle 2%nat); [lia | exact Hload].
  - intros Hd.
    unfold pci_read_config_dword, mbind, drv_bind, get_adapter in Hd.
    destruct (load_le (pci_config_buf (adapter m)) off 4 m) as [w mw |] eqn:Hload;
      simpl in Hd; [| discriminate Hd].
    inversion Hd; subst status w mw. split; [reflexivity |].
    apply (Hle 4%nat); [lia | exact Hload].
Qed.

Lemma config_values_fit_their_types_witness :
  0 = 0 /\ 0 <= 0x1234 < 2 ^ 16 /\ machine3 true [] = machine3 true [].
Proof.
  apply (proj1 (proj2 (config_values_fit_their_types
                         (machine3 true []) (machine3 true []) 0x2E 0 0x1234
                         ltac:(concrete_config)))).
  reflexivity.
Defined.

(** ** The BAR table beyond the claims *)

(** A call that returns either left the machine as it was or mapped the
    (valid, unmapped) entry it was given. *)
Lemma pci_map_address_range_machine
    (p : platform) (bar offset maxlen r : Z) (m m1 : machine) :
  pci_map_address_range p bar offset maxlen m = Done r m1 ->
  m1 = m \/
  exists b : VIRTIO_BAR,
    valid_bar bar /\
    pci_bars (adapter m) !! Z.to_nat bar = Some b /\
    pBase b = NULL /\
    m1 = after_map p bar b m.
Proof.
  intros Hcall.
  destruct (Z.ltb_spec bar PCI_TYPE0_ADDRESSES) as [Hhi | Hhi].
  - destruct (array_at (pci_bars (adapter m)) bar) as [b |] eqn:Hat.
    + assert (0 <= bar) as Hlo.
      { destruct (Z.lt_ge_cases bar 0) as [Hneg | ]; [| assumption].
        rewrite array_at_negative in Hat by assumption. discriminate Hat. }
      rewrite array_at_inside in Hat by assumption.
      rewrite (pci_map_address_range_entry p bar offset maxlen m b (conj Hlo Hhi) Hat)
        in Hcall.
      destruct (Z.eqb_spec (pBase b) NULL) as [Hnull | Hmapped];
        inversion Hcall; subst; [right | left; reflexivity].
      exists b. repeat split; assumption.
    + unfold pci_map_address_range, mbind, drv_bind, get_adapter, index in Hcall.
      rewrite (proj2 (Z.ltb_lt _ _) Hhi), Hat in Hcall. discriminate Hcall.
  - destruct (bar_index_above_table p bar offset maxlen m Hhi) as [_ Hnull].
    rewrite Hnull in Hcall. inversion Hcall. left. reflexivity.
Qed.

(** What a call that returns leaves alone. *)
Lemma pci_map_address_range_frame
    (p : platform) (bar offset maxlen r : Z) (m m1 : machine) :
  pci_map_address_range p bar offset maxlen m = Done r m1 ->
  length (pci_bars (adapter m1)) = length (pci_bars (adapter m)) /\
  (forall j : nat, j <> Z.to_nat bar ->
     pci_bars (adapter m1) !! j = pci_bars (adapter m) !! j) /\
  (forall b : VIRTIO_BAR, pci_bars (adapter m) !! Z.to_nat bar = Some b ->
     exists b1 : VIRTIO_BAR,
       pci_bars (adapter m1) !! Z.to_nat bar = Some b1 /\ same_but_pBase b b1) /\
  ram m1 = ram m /\
  pageOffset (adapter m1) = pageOffset (adapter m) /\
  pageAllocationVa (adapter m1) = pageAllocationVa (adapter m) /\
  pageAllocationSize (adapter m1) = pageAllocationSize (adapter m) /\
  pci_config_buf (adapter m1) = pci_config_buf (adapter m) /\
  msix_enabled (adapter m1) = msix_enabled (adapter m).
Proof.
  intros Hcall.
  destruct (pci_map_address_range_machine p bar offset maxlen r m m1 Hcall)
    as [-> | (b & Hbar & Hb & Hnull & ->)].
  - split; [reflexivity |]. split; [reflexivity |].
    split; [| repeat split].
    intros b Hb. exists b. split; [exact Hb | repeat split].
  - unfold after_map. simpl.
    split; [apply length_insert |].
    split; [intros j Hj; apply list_lookup_insert_ne; congruence |].
    split; [| repeat split].
    intros b' Hb'. rewrite Hb in Hb'. inversion Hb'; subst b'.
    eexists. split; [apply list_lookup_insert_eq; exact (lookup_lt_Some _ _ _ Hb) |].
    repeat split.
Qed.

(** X10.  A call changes one thing at most, the mapped base of the entry it
    was given: the table keeps its size, every other entry stays as it is,
    the entry keeps its physical base, length and space flag, memory is not
    written and the rest of the adapter is unchanged. *)
Theorem map_changes_one_mapped_base_only
    (p : platform) (bar offset maxlen r : Z) (m m1 : machine) :
  pci_map_address_range p bar offset maxlen m = Done r m1 ->
  length (pci_bars (adapter m1)) = length (pci_bars (adapter m)) /\
  (forall j : nat, j <> Z.to_nat bar ->
     pci_bars (adapter m1) !! j = pci_bars (adapter m) !! j) /\
  (forall b : VIRTIO_BAR, pci_bars (adapter m) !! Z.to_nat bar = Some b ->
     exists b1 : VIRTIO_BAR,
       pci_bars (adapter m1) !! Z.to_nat bar = Some b1 /\ same_but_pBase b b1) /\
  ram m1 = ram m /\
  pageOffset (adapter m1) = pageOffset (adapter m) /\
  pageAllocationVa (adapter m1) = pageAllocationVa (adapter m) /\
  pageAllocationSize (adapter m1) = pageAllocationSize (adapter m) /\
  pci_config_buf (adapter m1) = pci_config_buf (adapter m) /\
  msix_enabled (adapter m1) = msix_enabled (adapter m).
Proof. apply pci_map_address_range_frame. Qed.

Lemma map_changes_one_mapped_base_only_witness :
  length (pci_bars (adapter (after_map x64 0 bar0_unmapped
                               (machine3 true [0xFFFFF78000000000]))))
    = length (pci_bars (adapter (machine3 true [0xFFFFF78000000000]))) /\
  (forall j : nat, j <> Z.to_nat 0 ->
     pci_bars (adapter (after_map x64 0 bar0_unmapped
                          (machine3 true [0xFFFFF78000000000]))) !! j
     = pci_bars (adapter (machine3 true [0xFFFFF78000000000])) !! j).
Proof.
  destruct (map_changes_one_mapped_base_only x64 0 0x500 0x100
              (0xFFFFF78000000000 + 0x500)
              (machine3 true [0xFFFFF78000000000])
              (after_map x64 0 bar0_unmapped (machine3 true [0xFFFFF78000000000])))
    as (Hlen & Hother & _); [reflexivity |].
  split; [exact Hlen | exact Hother].
Defined.

(** X11.  Mapping never changes what [pci_get_resource_len] reports: after
    a call of [pci_map_address_range] that returned, the length reported
    for every valid BAR index is the length recorded before the call. *)
Theorem map_keeps_resource_len
    (p : platform) (bar offset maxlen r j : Z) (m m1 : machine) (bj : VIRTIO_BAR) :
  pci_map_address_range p bar offset maxlen m = Done r m1 ->
  valid_bar j ->
  pci_bars (adapter m) !! Z.to_nat j = Some bj ->
  pci_get_resource_len j m = Done (uLength bj) m /\
  pci_get_resource_len j m1 = Done (uLength bj) m1.
Proof.
  intros Hcall [Hlo Hhi] Hj.
  assert (forall (m0 : machine) (b0 : VIRTIO_BAR),
             pci_bars (adapter m0) !! Z.to_nat j = Some b0 ->
             pci_get_resource_len j m0 = Done (uLength b0) m0) as Hlen.
  { intros m0 b0 H0.
    unfold pci_get_resource_len, mbind, drv_bind, get_adapter.
    rewrite (proj2 (Z.ltb_lt _ _) Hhi), (index_inside _ j b0) by assumption.
    reflexivity. }
  split; [now apply Hlen |].
  destruct (pci_map_address_range_frame p bar offset maxlen r m m1 Hcall)
    as (_ & Hother & Hsame & _).
  destruct (decide (Z.to_nat j = Z.to_nat bar)) as [Heq | Hne].
  - rewrite Heq in Hj. destruct (Hsame bj Hj) as (b1 & Hb1 & _ & Hlen1 & _).
    rewrite <- Heq in Hb1. rewrite (Hlen m1 b1 Hb1), Hlen1. reflexivity.
  - apply Hlen. rewrite (Hother _ Hne). exact Hj.
Qed.

Lemma map_keeps_resource_len_witness :
  pci_get_resource_len 0 (machine3 true [0xFFFFF78000000000])
    = Done 0x1000 (machine3 true [0xFFFFF78000000000]) /\
  pci_get_resource_len 0
    (after_map x64 0 bar0_unmapped (machine3 true [0xFFFFF78000000000]))
    = Done 0x1000 (after_map x64 0 bar0_unmapped (machine3 true [0xFFFFF78000000000])).
Proof.
  apply (map_keeps_resource_len x64 0 0x500 0x100 (0xFFFFF78000000000 + 0x500) 0
           (machine3 true [0xFFFFF78000000000])
           (after_map x64 0 bar0_unmapped (machine3 true [0xFFFFF78000000000]))
           bar0_unmapped).
  - reflexivity.
  - unfold valid_bar, PCI_TYPE0_ADDRESSES. lia.
  - reflexivity.
Defined.

(** X12.  On a mapped BAR whose window lies in the address space, the call
    asks the host nothing and changes nothing; it returns [NULL] exactly
    when the offset is at or beyond the BAR's length, and otherwise the
    pointer [pBase + offset], which lies inside the window
    [[pBase, pBase + uLength)]. *)
Theorem map_pointer_is_inside_window
    (p : platform) (bar offset maxlen : Z) (m : machine) (b : VIRTIO_BAR) :
  valid_bar bar ->
  pci_bars (adapter m) !! Z.to_nat bar = Some b ->
  0 < pBase b ->
  pBase b + uLength b <= 2 ^ ptr_bits p ->
  0 <= offset ->
  exists r : Z,
    pci_map_address_range p bar offset maxlen m = Done r m /\
    (r = NULL <-> uLength b <= offset) /\
    (offset < uLength b -> r = pBase b + offset /\ pBase b <= r < pBase b + uLength b).
Proof.
  intros Hbar Hb Hbase Hwin Hoff.
  rewrite (pci_map_address_range_entry p bar offset maxlen m b Hbar Hb).
  destruct (Z.eqb_spec (pBase b) NULL) as [Hnull | _]; [unfold NULL in Hnull; lia |].
  destruct (Z.ltb_spec offset (uLength b)) as [Hin | Hout].
  - rewrite ULONG_PTR_small by (unfold is_ULONG_PTR, is_unsigned; lia).
    eexists. split; [reflexivity |]. unfold NULL. split; [lia |].
    intros _. lia.
  - eexists. split; [reflexivity |]. split; [tauto | lia].
Qed.

Lemma map_pointer_is_inside_window_witness :
  exists r : Z,
    pci_map_address_range x64 0 0xFFF 0x100 machine_mapped = Done r machine_mapped /\
    (r = NULL <-> 0x1000 <= 0xFFF) /\
    (0xFFF < 0x1000 ->
     r = 0xFFFFF78000000000 + 0xFFF /\
     0xFFFFF78000000000 <= r < 0xFFFFF78000000000 + 0x1000).
Proof.
  apply (map_pointer_is_inside_window x64 0 0xFFF 0x100 machine_mapped
           (set_pBase 0xFFFFF78000000000 bar0_unmapped)).
  - unfold valid_bar, PCI_TYPE0_ADDRESSES. lia.
  - reflexivity.
  - simpl. lia.
  - simpl. lia.
  - lia.
Defined.

(** X13.  The first call on an unmapped BAR asks the host for the whole
    BAR: one [StorPortGetDeviceBase] request with the adapter's bus number
    and the entry's physical base, length and space flag, whatever the
    offset and [maxlen]; it consumes one answer of the host.  The request is
    made, and its answer stored, also when the offset is at or beyond the
    BAR's length and the call returns [NULL]. *)
Theorem map_request_is_for_the_whole_bar
    (p : platform) (bar offset maxlen : Z) (m : machine) (b : VIRTIO_BAR) :
  valid_bar bar ->
  pci_bars (adapter m) !! Z.to_nat bar = Some b ->
  pBase b = NULL ->
  exists (r : Z) (m1 : machine),
    pci_map_address_range p bar offset maxlen m = Done r m1 /\
    host_calls m1 =
      host_calls m ++
      [GetDeviceBaseCall (system_io_bus_number (adapter m)) (BasePA b) (uLength b)
         (bPortSpace b)] /\
    host_replies m1 = tail (host_replies m) /\
    pci_bars (adapter m1) !! Z.to_nat bar =
      Some (set_pBase (ULONG_PTR p (hd NULL (host_replies m))) b) /\
    (uLength b <= offset -> r = NULL).
Proof.
  intros Hbar Hb Hnull.
  rewrite (pci_map_address_range_entry p bar offset maxlen m b Hbar Hb).
  rewrite (proj2 (Z.eqb_eq _ _) Hnull). cbv zeta.
  eexists _, (after_map p bar b m). split; [reflexivity |].
  split; [unfold after_map; simpl; now rewrite negb_involutive |].
  split; [reflexivity |].
  split; [now apply after_map_entry |].
  intros Hout. rewrite (proj2 (Z.ltb_ge _ _) Hout), andb_false_r. reflexivity.
Qed.

(** A probe at offset 0x1000 of the unmapped 0x1000-byte BAR 0. *)
Lemma map_request_is_for_the_whole_bar_witness :
  exists (r : Z) (m1 : machine),
    pci_map_address_range x64 0 0x1000 0x100 (machine3 true [0xFFFFF78000000000])
      = Done r m1 /\
    host_calls m1 = [] ++ [GetDeviceBaseCall 0 0xFEBC0000 0x1000 false] /\
    host_replies m1 = tail [0xFFFFF78000000000] /\
    pci_bars (adapter m1) !! Z.to_nat 0 =
      Some (set_pBase (ULONG_PTR x64 (hd NULL [0xFFFFF78000000000])) bar0_unmapped) /\
    (0x1000 <= 0x1000 -> r = NULL).
Proof.
  apply (map_request_is_for_the_whole_bar x64 0 0x1000 0x100
           (machine3 true [0xFFFFF78000000000]) bar0_unmapped).
  - unfold valid_bar, PCI_TYPE0_ADDRESSES. lia.
  - reflexivity.
  - reflexivity.
Defined.

(** Counting unmapped entries. *)
Lemma unmapped_le_length (bars : list VIRTIO_BAR) :
  (unmapped bars <= length bars)%nat.
Proof.
  induction bars as [| b rest IH]; simpl; [lia |].
  destruct (pBase b =? NULL); lia.
Qed.

Lemma unmapped_insert (bars : list VIRTIO_BAR) :
  forall (i : nat) (b b' : VIRTIO_BAR),
    bars !! i = Some b -> pBase b = NULL -> pBase b' <> NULL ->
    S (unmapped (<[i := b']> bars)) = unmapped bars.
Proof.
  induction bars as [| b0 rest IH]; intros i b b' Hb Hnull Hmapped; [inversion Hb |].
  destruct i as [| i]; simpl in *.
  - inversion Hb; subst b0.
    rewrite (proj2 (Z.eqb_eq _ _) Hnull), (proj2 (Z.eqb_neq _ _) Hmapped). lia.
  - rewrite <- (IH i b b' Hb Hnull Hmapped). lia.
Qed.

Lemma unmapped_pos (bars : list VIRTIO_BAR) :
  forall (i : nat) (b : VIRTIO_BAR),
    bars !! i = Some b -> pBase b = NULL -> (0 < unmapped bars)%nat.
Proof.
  induction bars as [| b0 rest IH]; intros i b Hb Hnull; [inversion Hb |].
  destruct i as [| i]; simpl in *.
  - inversion Hb; subst b0. rewrite (proj2 (Z.eqb_eq _ _) Hnull). lia.
  - pose proof (IH i b Hb Hnull). lia.
Qed.

(** One call under a host that maps whatever it is asked to. *)
Lemma map_step_with_willing_host
    (p : platform) (bar offset maxlen : Z) (m : machine) :
  bars_wf (adapter m) ->
  valid_bar bar ->
  Forall (fun reply => ULONG_PTR p reply <> NULL) (host_replies m) ->
  (unmapped (pci_bars (adapter m)) <= length (host_replies m))%nat ->
  exists (r : Z) (m1 : machine),
    pci_map_address_range p bar offset maxlen m = Done r m1 /\
    bars_wf (adapter m1) /\
    Forall (fun reply => ULONG_PTR p reply <> NULL) (host_replies m1) /\
    (unmapped (pci_bars (adapter m1)) <= length (host_replies m1))%nat /\
    (mapping_requests m1 + unmapped (pci_bars (adapter m1))
     = mapping_requests m + unmapped (pci_bars (adapter m)))%nat.
Proof.
  intros Hwf Hbar Hreplies Henough.
  destruct (valid_bar_entry _ bar Hwf Hbar) as [b Hb].
  rewrite (pci_map_address_range_entry p bar offset maxlen m b Hbar Hb).
  destruct (Z.eqb_spec (pBase b) NULL) as [Hnull | Hmapped].
  - cbv zeta. eexists _, (after_map p bar b m). split; [reflexivity |].
    pose proof (unmapped_pos _ _ _ Hb Hnull) as Hpos.
    destruct (host_replies m) as [| reply replies] eqn:Hrs; [simpl in Henough; lia |].
    apply Forall_cons in Hreplies as [Hreply Hrest].
    assert (S (unmapped (pci_bars (adapter (after_map p bar b m))))
            = unmapped (pci_bars (adapter m))) as Hcount.
    { unfold after_map. simpl. rewrite Hrs. simpl.
      apply (unmapped_insert _ _ b); [exact Hb | exact Hnull | exact Hreply]. }
    split; [unfold bars_wf, after_map in *; simpl; now rewrite length_insert |].
    split; [unfold after_map; simpl; rewrite Hrs; exact Hrest |].
    assert (host_replies (after_map p bar b m) = replies) as Hleft
        by (unfold after_map; simpl; now rewrite Hrs).
    split; [rewrite Hleft; simpl in Henough; lia |].
    rewrite after_map_requests. lia.
  - eexists _, m. split; [reflexivity |]. repeat split; assumption.
Qed.

(** X14.  Lazy mapping asks at most once per BAR: under a host that maps
    whatever it is asked to (it never answers [NULL] and has an answer for
    every unmapped BAR), any sequence of calls with valid BAR indices
    returns, and the number of mapping requests it issues is the number of
    BARs it mapped, so at most the number of BARs that were unmapped and at
    most [PCI_TYPE0_ADDRESSES]. *)
Theorem map_sequence_asks_once_per_bar (p : platform) (calls : list (Z * Z * Z)) :
  forall m : machine,
    bars_wf (adapter m) ->
    Forall (fun call => valid_bar (fst (fst call))) calls ->
    Forall (fun reply => ULONG_PTR p reply <> NULL) (host_replies m) ->
    (unmapped (pci_bars (adapter m)) <= length (host_replies m))%nat ->
    exists (rs : list Z) (m' : machine),
      map_sequence p calls m = Done rs m' /\
      length rs = length calls /\
      (mapping_requests m' + unmapped (pci_bars (adapter m'))
       = mapping_requests m + unmapped (pci_bars (adapter m)))%nat /\
      (mapping_requests m' <= mapping_requests m + unmapped (pci_bars (adapter m)))%nat /\
      (mapping_requests m' <= mapping_requests m + Z.to_nat PCI_TYPE0_ADDRESSES)%nat.
Proof.
  induction calls as [| [[bar offset] maxlen] rest IH];
    intros m Hwf Hvalid Hreplies Henough.
  - exists [], m. split; [reflexivity |]. split; [reflexivity |].
    pose proof (unmapped_le_length (pci_bars (adapter m))).
    unfold bars_wf in Hwf. repeat split; lia.
  - apply Forall_cons in Hvalid as [Hbar Hrest]. simpl in Hbar.
    destruct (map_step_with_willing_host p bar offset maxlen m Hwf Hbar Hreplies Henough)
      as (r & m1 & Hcall & Hwf1 & Hreplies1 & Henough1 & Hcount1).
    destruct (IH m1 Hwf1 Hrest Hreplies1 Henough1)
      as (rs & m' & Hseq & Hlen & Hcount & _ & _).
    exists (r :: rs), m'.
    split.
    { simpl map_sequence. unfold mbind, drv_bind. rewrite Hcall, Hseq. reflexivity. }
    split; [simpl; now rewrite Hlen |].
    pose proof (unmapped_le_length (pci_bars (adapter m))).
    unfold bars_wf in Hwf. repeat split; lia.
Qed.

(** Four calls on BARs 0 and 1 of a table with six unmapped entries: two
    requests. *)
Lemma map_sequence_asks_once_per_bar_witness :
  exists (rs : list Z) (m' : machine),
    map_sequence x64 [(0, 0x500, 0x100); (1, 0, 4); (0, 0x10, 4); (1, 0, 4)]
      (machine3 true [0x10000; 0x20000; 0x30000; 0x40000; 0x50000; 0x60000])
      = Done rs m' /\
    length rs = 4%nat /\
    mapping_requests m' = 2%nat.
Proof.
  destruct (map_sequence_asks_once_per_bar x64
              [(0, 0x500, 0x100); (1, 0, 4); (0, 0x10, 4); (1, 0, 4)]
              (machine3 true [0x10000; 0x20000; 0x30000; 0x40000; 0x50000; 0x60000]))
    as (rs & m' & Hseq & Hlen & _).
  - reflexivity.
  - unfold valid_bar, PCI_TYPE0_ADDRESSES.
    repeat (apply Forall_cons_2; [simpl; lia |]). apply Forall_nil_2.
  - repeat (apply Forall_cons_2; [vm_compute; discriminate |]). apply Forall_nil_2.
  - simpl. lia.
  - exists rs, m'. split; [exact Hseq |]. split; [exact Hlen |].
    assert (map_sequence x64 [(0, 0x500, 0x100); (1, 0, 4); (0, 0x10, 4); (1, 0, 4)]
              (machine3 true [0x10000; 0x20000; 0x30000; 0x40000; 0x50000; 0x60000])
            = Done rs m') as Hrun by exact Hseq.
    vm_compute in Hrun. inversion Hrun. reflexivity.
Defined.

(** ** MSI-X vectors beyond the claims *)

(** X15.  The vector is a 16-bit value for every queue index, sentinel and
    MSI-X state.  With MSI-X enabled, the queues 0 to 0xFFFE get pairwise
    distinct vectors, none of them vector 0, and two queue indices [2^16]
    apart get the same vector. *)
Theorem msix_vectors_of_queues (nv : Z) (m : machine) :
  (forall k : Z,
      exists v : Z, vdev_get_msix_vector nv k m = Done v m /\ 0 <= v < 2 ^ 16) /\
  (msix_enabled (adapter m) = true ->
   forall k1 k2 : Z,
     0 <= k1 < 0xFFFF -> 0 <= k2 < 0xFFFF ->
     vdev_get_msix_vector nv k1 m = vdev_get_msix_vector nv k2 m -> k1 = k2) /\
  (msix_enabled (adapter m) = true ->
   forall k : Z, 0 <= k < 0xFFFF -> vdev_get_msix_vector nv k m <> Done 0 m) /\
  (forall k : Z,
      0 <= k -> vdev_get_msix_vector nv (k + 2 ^ 16) m = vdev_get_msix_vector nv k m).
Proof.
  assert (forall x : Z, 0 <= x mod 2 ^ 16 < 2 ^ 16) as Hrange
      by (intros x; apply Z.mod_pos_bound; lia).
  split; [| split; [| split]].
  - intros k. destruct (Z.lt_ge_cases k 0) as [Hneg | Hpos].
    + rewrite vdev_get_msix_vector_config by assumption.
      eexists. split; [reflexivity | apply Hrange].
    + rewrite vdev_get_msix_vector_queue by assumption.
      eexists. split; [reflexivity |].
      destruct (msix_enabled (adapter m)); apply Hrange.
  - intros Hon k1 k2 H1 H2 Heq.
    rewrite !vdev_get_msix_vector_queue, Hon in Heq by lia.
    rewrite !Z.mod_small in Heq by (change (2 ^ 16) with 65536; lia).
    inversion Heq. lia.
  - intros Hon k Hk Heq.
    rewrite vdev_get_msix_vector_queue, Hon in Heq by lia.
    rewrite Z.mod_small in Heq by (change (2 ^ 16) with 65536; lia).
    inversion Heq. lia.
  - intros k Hk.
    rewrite !vdev_get_msix_vector_queue by lia.
    replace (k + 2 ^ 16 + 1) with (k + 1 + 1 * 2 ^ 16) by lia.
    rewrite Z_mod_plus_full. reflexivity.
Qed.

Lemma msix_vectors_of_queues_witness :
  (forall k1 k2 : Z,
      0 <= k1 < 0xFFFF -> 0 <= k2 < 0xFFFF ->
      vdev_get_msix_vector 0xFFFF k1 (machine3 true [])
        = vdev_get_msix_vector 0xFFFF k2 (machine3 true []) -> k1 = k2) /\
  vdev_get_msix_vector 0xFFFF (3 + 2 ^ 16) (machine3 true [])
    = vdev_get_msix_vector 0xFFFF 3 (machine3 true []).
Proof.
  destruct (msix_vectors_of_queues 0xFFFF (machine3 true []))
    as (_ & Hdistinct & _ & Halias).
  split; [apply Hdistinct; reflexivity | apply Halias; lia].
Defined.

(** ** Register access beyond the claims *)

(** X16.  Ports are exactly the addresses below 0x10000: on both platforms
    every accessor uses port space for an address below [2^16] and register
    space for every address from [2^16] on, also, on x64, for an address
    whose low 32 bits are all zero. *)
Theorem ports_are_the_addresses_below_0x10000
    (p : platform) (a vb vw vd : Z) (m : machine) :
  is_ULONG_PTR p a ->
  is_unsigned 8 vb -> is_unsigned 16 vw -> is_unsigned 32 vd ->
  (a < 2 ^ 16 ->
   ReadVirtIODeviceByte p a m = StorPortReadPortUchar a m /\
   ReadVirtIODeviceWord p a m = StorPortReadPortUshort a m /\
   ReadVirtIODeviceRegister p a m = StorPortReadPortUlong a m /\
   WriteVirtIODeviceByte p a vb m = StorPortWritePortUchar a vb m /\
   WriteVirtIODeviceWord p a vw m = StorPortWritePortUshort a vw m /\
   WriteVirtIODeviceRegister p a vd m = StorPortWritePortUlong a vd m) /\
  (2 ^ 16 <= a ->
   ReadVirtIODeviceByte p a m = StorPortReadRegisterUchar a m /\
   ReadVirtIODeviceWord p a m = StorPortReadRegisterUshort a m /\
   ReadVirtIODeviceRegister p a m = StorPortReadRegisterUlong a m /\
   WriteVirtIODeviceByte p a vb m = StorPortWriteRegisterUchar a vb m /\
   WriteVirtIODeviceWord p a vw m = StorPortWriteRegisterUshort a vw m /\
   WriteVirtIODeviceRegister p a vd m = StorPortWriteRegisterUlong a vd m).
Proof.
  intros Ha Hb Hw Hd.
  assert (0 <= a) as Hpos by (destruct Ha; assumption).
  unfold ReadVirtIODeviceByte, ReadVirtIODeviceWord, ReadVirtIODeviceRegister,
    WriteVirtIODeviceByte, WriteVirtIODeviceWord, WriteVirtIODeviceRegister.
  rewrite (register_space_test p a Ha).
  unfold UCHAR, USHORT, ULONG, u8, u16, u32.
  rewrite (to_unsigned_small 8 vb Hb), (to_unsigned_small 16 vw Hw),
    (to_unsigned_small 32 vd Hd).
  split; intros Hcmp.
  - rewrite bool_decide_eq_false_2
      by (intros Hhigh; apply (high_bits_iff a Hpos) in Hhigh; lia).
    repeat split.
  - rewrite bool_decide_eq_true_2 by (apply (high_bits_iff a Hpos); exact Hcmp).
    repeat split.
Qed.

(** On x64 the address [2^32], all of whose low 32 bits are zero, is in
    register space. *)
Lemma ports_are_the_addresses_below_0x10000_witness :
  ReadVirtIODeviceByte x64 (2 ^ 32) (machine3 true [7])
    = StorPortReadRegisterUchar (2 ^ 32) (machine3 true [7]) /\
  WriteVirtIODeviceWord x64 0xFFFF 0x1234 (machine3 true [7])
    = StorPortWritePortUshort 0xFFFF 0x1234 (machine3 true [7]).
Proof.
  destruct (ports_are_the_addresses_below_0x10000 x64 (2 ^ 32) 1 0x1234 1
              (machine3 true [7])) as [_ Hreg];
    try (unfold is_ULONG_PTR, is_unsigned; simpl; lia).
  destruct (ports_are_the_addresses_below_0x10000 x64 0xFFFF 1 0x1234 1
              (machine3 true [7])) as [Hport _];
    try (unfold is_ULONG_PTR, is_unsigned; simpl; lia).
  split.
  - apply Hreg. lia.
  - apply Hport. lia.
Defined.

(** ** The busy wait *)

(** X17.  [vdev_sleep] stalls for [1000 * msecs] microseconds as long as
    that fits 32 bits, that is for up to 4294967 ms; beyond, the product
    wraps around and the stall is shorter than asked for, by a multiple of
    [2^32] microseconds. *)
Theorem vdev_sleep_stall_time (KeStallExecutionProcessor : Z -> drv unit) (msecs : Z) :
  is_unsigned 32 msecs ->
  (msecs <= 4294967 ->
   vdev_sleep KeStallExecutionProcessor msecs = KeStallExecutionProcessor (1000 * msecs)) /\
  (4294967 < msecs ->
   exists us : Z,
     vdev_sleep KeStallExecutionProcessor msecs = KeStallExecutionProcessor us /\
     0 <= us < 2 ^ 32 /\
     us < 1000 * msecs /\
     (1000 * msecs - us) mod 2 ^ 32 = 0).
Proof.
  unfold is_unsigned, vdev_sleep, u32, to_unsigned.
  change (2 ^ 32) with 4294967296. intros Hm. split; intros Hcmp.
  - rewrite Z.mod_small by lia. reflexivity.
  - exists ((1000 * msecs) mod 4294967296).
    pose proof (Z.mod_pos_bound (1000 * msecs) 4294967296 ltac:(lia)) as Hb.
    split; [reflexivity |]. split; [exact Hb |]. split; [lia |].
    rewrite (Z.mod_eq (1000 * msecs) 4294967296) by lia.
    replace (1000 * msecs - (1000 * msecs - 4294967296 * (1000 * msecs / 4294967296)))
      with ((1000 * msecs / 4294967296) * 4294967296) by lia.
    apply Z.mod_mul. lia.
Qed.

(** 1000 ms are stalled for a second, 4294968 ms for 704 microseconds. *)
Lemma vdev_sleep_stall_time_witness :
  vdev_sleep stall_noting 1000 = stall_noting 1000000 /\
  vdev_sleep stall_noting 4294968 = stall_noting 704.
Proof.
  split.
  - apply (vdev_sleep_stall_time stall_noting 1000); unfold is_unsigned; lia.
  - destruct (vdev_sleep_stall_time stall_noting 4294968) as [_ Hwrap];
      [unfold is_unsigned; lia |].
    destruct Hwrap as (us & Hcall & Hrange & _ & Hmod); [lia |].
    assert (us = 704) as ->; [| exact Hcall].
    change (2 ^ 32) with 4294967296 in *.
    apply Z.mod_divide in Hmod; [| lia]. destruct Hmod as [q Hq]. lia.
Defined.

(** ** Allocation and mapping together *)



(** X19.  [pci_get_resource_len] by index, on a table of
    [PCI_TYPE0_ADDRESSES] entries: for an index inside the table it returns
    the length recorded in that entry, for an index at or above the size of
    the table it returns 0, as [pci_map_address_range] returns [NULL] there;
    in both cases the machine is left as it is, so the host is not asked
    and nothing is mapped. *)
Theorem resource_len_by_index (p : platform) (bar offset maxlen : Z) (m : machine) :
  bars_wf (adapter m) ->
  0 <= bar ->
  (bar < PCI_TYPE0_ADDRESSES ->
   exists b : VIRTIO_BAR,
     pci_bars (adapter m) !! Z.to_nat bar = Some b /\
     pci_get_resource_len bar m = Done (uLength b) m) /\
  (PCI_TYPE0_ADDRESSES <= bar ->
   pci_get_resource_len bar m = Done 0 m /\
   pci_map_address_range p bar offset maxlen m = Done NULL m).
Proof.
  intros Hwf Hlo. split; intros Hcmp.
  - destruct (valid_bar_entry _ bar Hwf (conj Hlo Hcmp)) as [b Hb].
    exists b. split; [exact Hb |].
    unfold pci_get_resource_len, mbind, drv_bind, get_adapter.
    rewrite (proj2 (Z.ltb_lt _ _) Hcmp), (index_inside _ bar b) by assumption.
    reflexivity.
  - now apply bar_index_above_table.
Qed.

Lemma resource_len_by_index_witness :
  (exists b : VIRTIO_BAR,
      pci_bars (adapter (machine3 true [])) !! Z.to_nat 0 = Some b /\
      pci_get_resource_len 0 (machine3 true []) = Done (uLength b) (machine3 true [])) /\
  pci_get_resource_len 6 (machine3 true []) = Done 0 (machine3 true []) /\
  pci_map_address_range x64 6 0 0x100 (machine3 true []) = Done NULL (machine3 true []).
Proof.
  split.
  - apply (resource_len_by_index x64 0 0 0x100 (machine3 true []));
      [reflexivity | lia | unfold PCI_TYPE0_ADDRESSES; lia].
  - apply (resource_len_by_index x64 6 0 0x100 (machine3 true []));
      [reflexivity | lia | unfold PCI_TYPE0_ADDRESSES; lia].
Defined.
